(** * Swuva Buyer: the authentication session lifecycle

    A shallow embedding of the session store ([src/stores/auth.ts]), the
    shared API client ([lib/api]), the auth service and hooks
    ([src/features/auth]), the splash navigation effect ([app/splash.tsx]),
    the OTP verification screen and the forgot-password screen, together
    with the properties the specification states about them.

    Conventions.  A JavaScript value that may be [null]/[undefined] is an
    [option]; a string used in a boolean position is truthy when it is
    non-empty.  Asynchronous code is sequential code in the monad [M]
    below: every [await] is a bind, a rejected promise is [Throw].  What
    the outside world answers (the HTTP reply, whether a secure-storage
    call fails) is an explicit input. *)

From stdpp Require Import base strings pretty gmap list.
From Stdlib Require Import Ascii String.

Open Scope string_scope.

(** ** JavaScript truthiness for the values the code tests

    A string is a byte string.  For text of ASCII characters a byte is a
    UTF-16 code unit, so that [String.length] is the code's [length],
    [substring] its [slice], and [trim] and [toLowerCase] below are the
    JavaScript methods.  Beyond ASCII they differ from the code (a length
    counts bytes, [trim] leaves NBSP and the other Unicode spaces,
    [toLowerCase] leaves letters outside A-Z), so a property that rests on
    a length, on a slice or on what [trim] and [toLowerCase] change is
    stated for ASCII text. *)

Module Js.

(** [s || d] for a possibly missing string: the empty string is falsy. *)
Definition or_str (s : option string) (d : string) : string :=
  match s with
  | Some v => if decide (v = "") then d else v
  | None => d
  end.

(** [n || d] for a possibly missing number: [0] is falsy. *)
Definition or_nat (n : option nat) (d : nat) : nat :=
  match n with
  | Some 0 => d
  | Some v => v
  | None => d
  end.

(** A string (or [null]) in a condition. *)
Definition truthy (s : option string) : bool :=
  match s with
  | Some v => if decide (v = "") then false else true
  | None => false
  end.

(** [String.prototype.toLowerCase], on the ASCII range. *)
Definition lower_ascii (c : ascii) : ascii :=
  let n := nat_of_ascii c in
  if (65 <=? n)%nat && (n <=? 90)%nat then ascii_of_nat (n + 32) else c.

Fixpoint toLowerCase (s : string) : string :=
  match s with
  | EmptyString => EmptyString
  | String c r => String (lower_ascii c) (toLowerCase r)
  end.

(** [String.prototype.includes]. *)
Fixpoint includes (s sub : string) : bool :=
  if String.prefix sub s then true
  else match s with
       | EmptyString => false
       | String _ r => includes r sub
       end.

(** White space removed by [String.prototype.trim] (ASCII range). *)
Definition is_space (c : ascii) : bool :=
  let n := nat_of_ascii c in
  (n =? 32)%nat || ((9 <=? n)%nat && (n <=? 13)%nat).

Fixpoint trimStart (s : string) : string :=
  match s with
  | EmptyString => EmptyString
  | String c r => if is_space c then trimStart r else s
  end.

(** Drops trailing white space: a suffix made of spaces only becomes empty. *)
Fixpoint trimEnd (s : string) : string :=
  match s with
  | EmptyString => EmptyString
  | String c r =>
      match trimEnd r with
      | EmptyString => if is_space c then EmptyString else String c EmptyString
      | r' => String c r'
      end
  end.

Definition trim (s : string) : string := trimEnd (trimStart s).

End Js.

(** ** The persisted session store ([src/stores/auth.ts]) *)

Module AuthStore.

Inductive Role := BUYER | SELLER | ADMIN.

Record User := {
  id : string;
  email : string;
  name : option string;
  role : Role;
}.

Record AuthState := {
  user : option User;
  token : option string;
  isAuthenticated : bool;
  isHydrated : bool;
  rememberedEmail : option string;
}.

(** The initial values given to [create]. *)
Definition initialState : AuthState :=
  {| user := None; token := None; isAuthenticated := false;
     isHydrated := false; rememberedEmail := None |}.

(** zustand's [set(partial)] merges the listed fields and keeps the rest. *)
Definition setAuth (u : User) (t : string) (s : AuthState) : AuthState :=
  {| user := Some u; token := Some t; isAuthenticated := true;
     isHydrated := isHydrated s; rememberedEmail := rememberedEmail s |}.

Definition logout (s : AuthState) : AuthState :=
  {| user := None; token := None; isAuthenticated := false;
     isHydrated := isHydrated s; rememberedEmail := rememberedEmail s |}.

Definition setHydrated (hydrated : bool) (s : AuthState) : AuthState :=
  {| user := user s; token := token s; isAuthenticated := isAuthenticated s;
     isHydrated := hydrated; rememberedEmail := rememberedEmail s |}.

Definition setRememberedEmail (e : option string) (s : AuthState) : AuthState :=
  {| user := user s; token := token s; isAuthenticated := isAuthenticated s;
     isHydrated := isHydrated s; rememberedEmail := e |}.

(** The fields [partialize] writes to durable storage. *)
Record Persisted := {
  p_user : option User;
  p_token : option string;
  p_isAuthenticated : bool;
  p_rememberedEmail : option string;
}.

Definition partialize (s : AuthState) : Persisted :=
  {| p_user := user s; p_token := token s;
     p_isAuthenticated := isAuthenticated s;
     p_rememberedEmail := rememberedEmail s |}.

(** The persist middleware's default merge: the stored fields overwrite the
    current ones, the fields that are not stored are kept. *)
Definition merge (p : Persisted) (s : AuthState) : AuthState :=
  {| user := p_user p; token := p_token p;
     isAuthenticated := p_isAuthenticated p;
     isHydrated := isHydrated s; rememberedEmail := p_rememberedEmail p |}.

(** What the load from durable storage produced: nothing stored, a stored
    snapshot, or a failure with its message. *)
Inductive LoadResult :=
| LoadedNothing
| Loaded (p : Persisted)
| LoadFailed (reason : string).

(** The callback returned by [onRehydrateStorage].  Its two arguments are
    only logged; the one state write is [setState({ isHydrated: true })],
    outside every conditional. *)
Definition onRehydrateStorage (state : option AuthState) (error : option string)
    (s : AuthState) : AuthState :=
  setHydrated true s.

(** The middleware's hydration: merge what was loaded, then run the
    callback with the merged state; on a failed load run the callback with
    the error and no state. *)
Definition rehydrate (r : LoadResult) (s : AuthState) : AuthState :=
  match r with
  | LoadedNothing => onRehydrateStorage (Some s) None s
  | Loaded p => let s' := merge p s in onRehydrateStorage (Some s') None s'
  | LoadFailed reason => onRehydrateStorage None (Some reason) s
  end.

End AuthStore.

(** ** Values thrown by rejected promises, and the normalised API error *)

Module Err.

Definition FieldErrors := list (string * list string).

(** [ApiErrorResponse]: the body of a non-2xx reply.  The code reads every
    field through [?.] and [||], so each may be missing. *)
Record ApiErrorResponse := {
  body_message : option string;
  body_code : option string;
  body_errors : option FieldErrors;
}.

(** The part of an [AxiosError] the interceptor reads: the reply, when one
    arrived, and the error's own message. *)
Record AxiosResponse := {
  resp_status : nat;
  resp_data : option ApiErrorResponse;
}.

Record AxiosError := {
  response : option AxiosResponse;
  ax_message : string;
}.

(** [ApiError]: the single error shape every failure is normalised to. *)
Record ApiError := {
  message : string;
  code : string;
  status : nat;
  errors : option FieldErrors;
}.

(** What a [catch] or an [onError] can receive. *)
Inductive Thrown :=
| ThrownApi (e : ApiError)
| ThrownError (msg : string)
| ThrownOther.

End Err.

(** ** The world the async code runs in, and its monad *)

Module World.

(** Calls to collaborators whose only visible effect is the call itself. *)
Inductive Call :=
| SecureSet (key value : string)
| SecureDelete (key : string)
| InvalidateQueries (queryKey : list string)
| RemoveQueries (queryKey : list string).

(** [secure] is the content of the secure credential store; [secureFaults]
    says, call by call, whether the next secure-store call rejects ([true])
    or goes through; [auth] is the zustand store; [calls] is the log of
    collaborator calls, oldest first. *)
Record World := {
  secure : gmap string string;
  secureFaults : list bool;
  auth : AuthStore.AuthState;
  calls : list Call;
}.

Definition with_secure (f : gmap string string -> gmap string string) (w : World) : World :=
  {| secure := f (secure w); secureFaults := secureFaults w;
     auth := auth w; calls := calls w |}.

Definition with_auth (f : AuthStore.AuthState -> AuthStore.AuthState) (w : World) : World :=
  {| secure := secure w; secureFaults := secureFaults w;
     auth := f (auth w); calls := calls w |}.

Definition record (c : Call) (w : World) : World :=
  {| secure := secure w; secureFaults := secureFaults w;
     auth := auth w; calls := calls w ++ [c] |}.

(** Consumes the verdict for the next secure-store call; once the list is
    exhausted every call goes through. *)
Definition nextFault (w : World) : bool * World :=
  match secureFaults w with
  | [] => (false, w)
  | f :: fs => (f, {| secure := secure w; secureFaults := fs;
                      auth := auth w; calls := calls w |})
  end.

Inductive Outcome (A : Type) :=
| Ok (a : A)
| Throw (e : Err.Thrown).
Arguments Ok {A} a.
Arguments Throw {A} e.

Definition M (A : Type) : Type := World -> Outcome A * World.

Definition ret {A} (a : A) : M A := fun w => (Ok a, w).

Definition throw {A} (e : Err.Thrown) : M A := fun w => (Throw e, w).

Definition bind {A B} (c : M A) (k : A -> M B) : M B :=
  fun w =>
    match c w with
    | (Ok a, w') => k a w'
    | (Throw e, w') => (Throw e, w')
    end.

(** [try { c } catch (e) { h e }] *)
Definition try_catch {A} (c : M A) (h : Err.Thrown -> M A) : M A :=
  fun w =>
    match c w with
    | (Ok a, w') => (Ok a, w')
    | (Throw e, w') => h e w'
    end.

Definition modify (f : World -> World) : M unit := fun w => (Ok tt, f w).

End World.

Import World.

Notation "x <~ c ;; k" := (World.bind c (fun x => k))
  (at level 100, c at next level, right associativity).
Notation "c ;;; k" := (World.bind c (fun _ => k))
  (at level 100, right associativity).

(** ** The secure credential store (expo-secure-store) *)

Module SecureStore.

Definition failure : Err.Thrown := Err.ThrownError "SecureStore unavailable".

Definition setItemAsync (key value : string) : M unit :=
  fun w =>
    let '(fault, w1) := nextFault (record (SecureSet key value) w) in
    if fault then (Throw failure, w1)
    else (Ok tt, with_secure (insert key value) w1).

Definition deleteItemAsync (key : string) : M unit :=
  fun w =>
    let '(fault, w1) := nextFault (record (SecureDelete key) w) in
    if fault then (Throw failure, w1)
    else (Ok tt, with_secure (delete key) w1).

End SecureStore.

(** ** The shared API client ([lib/api]): the response interceptor *)

Module Api.

Import Err.

(** What axios hands to the response interceptors: a fulfilled 2xx reply
    with its data, or a rejection. *)
Inductive AxiosOutcome (D : Type) :=
| AxFulfilled (st : nat) (data : D)
| AxRejected (error : AxiosError).
Arguments AxFulfilled {D} st data.
Arguments AxRejected {D} error.

(** A reply with a failing status and an optional error body, as axios
    reports it. *)
Definition failingReply (st : nat) (body : option ApiErrorResponse) : AxiosError :=
  {| response := Some {| resp_status := st; resp_data := body |};
     ax_message := "Request failed with status code " +:+ pretty st |}.

Definition responseStatus (error : AxiosError) : option nat :=
  resp_status <$> response error.

Definition responseData (error : AxiosError) : option ApiErrorResponse :=
  response error ≫= resp_data.

(** The [apiError] object built at the end of the rejection handler. *)
Definition normalize (error : AxiosError) : ApiError :=
  {| message :=
       Js.or_str (Some (Js.or_str (responseData error ≫= body_message)
                                  (ax_message error)))
                 "An unexpected error occurred";
     code := Js.or_str (responseData error ≫= body_code) "UNKNOWN_ERROR";
     status := Js.or_nat (responseStatus error) 500;
     errors := responseData error ≫= body_errors |}.

(** The rejection handler of [api.interceptors.response]. *)
Definition onRejected {D} (error : AxiosError) : M D :=
  (if decide (responseStatus error = Some 401) then
     try_catch
       (SecureStore.deleteItemAsync "swuva-auth-token" ;;;
        SecureStore.deleteItemAsync "swuva-auth")
       (fun _ => ret tt)
   else ret tt) ;;;
  throw (ThrownApi (normalize error)).

(** [api.get] / [api.post] as seen by the caller: the fulfilled handler
    returns the response unchanged, so the caller reads its [data]. *)
Definition request {D} (ax : AxiosOutcome D) : M D :=
  match ax with
  | AxFulfilled _ data => ret data
  | AxRejected error => onRejected error
  end.

Definition isApiError (t : Thrown) : bool :=
  match t with ThrownApi _ => true | _ => false end.

Definition getErrorMessage (t : Thrown) : string :=
  match t with
  | ThrownApi e => message e
  | ThrownError msg => msg
  | ThrownOther => "An unexpected error occurred"
  end.

End Api.

(** ** API payloads ([src/features/auth/types]) *)

Module AuthTypes.

Record User := {
  id : string;
  email : string;
  name : option string;
  role : AuthStore.Role;
  emailVerified : bool;
  image : option string;
  createdAt : string;
  updatedAt : string;
}.

Record Session := {
  session_id : string;
  userId : string;
  expiresAt : string;
  token : string;
}.

(** [AuthSession], and the sign-up, sign-in and verify responses, which have
    the same shape.  The hooks read both fields defensively ([data.user],
    [data.session?.token]), so either may be absent at run time. *)
Record AuthSession := {
  user : option User;
  session : option Session;
}.

(** [data.session?.token] *)
Definition sessionToken (data : AuthSession) : option string :=
  token <$> session data.

End AuthTypes.

(** ** The auth service ([src/features/auth/services/auth.service.ts])

    The request body has no influence on what the client does next, so
    each call takes the transport's answer as its argument. *)

Module AuthService.

Import AuthTypes.

Definition signUp (ax : Api.AxiosOutcome AuthSession) : M AuthSession :=
  data <~ Api.request ax ;; ret data.

Definition signIn (ax : Api.AxiosOutcome AuthSession) : M AuthSession :=
  data <~ Api.request ax ;; ret data.

Definition signOut (ax : Api.AxiosOutcome unit) : M unit :=
  Api.request ax ;;; ret tt.

(** The [catch] clause has no condition on the error: it returns [null]. *)
Definition getSession (ax : Api.AxiosOutcome AuthSession) : M (option AuthSession) :=
  try_catch
    (data <~ Api.request ax ;; ret (Some data))
    (fun error => ret None).

Definition verifyEmailOTP (ax : Api.AxiosOutcome AuthSession) : M AuthSession :=
  data <~ Api.request ax ;; ret data.

Definition signInWithOTP (ax : Api.AxiosOutcome AuthSession) : M AuthSession :=
  data <~ Api.request ax ;; ret data.

End AuthService.

(** ** The auth hooks ([src/features/auth/hooks/useAuth.ts]) *)

Module UseAuth.

Import AuthTypes.

Module authKeys.
Definition all : list string := ["auth"].
Definition session : list string := all ++ ["session"].
Definition user : list string := all ++ ["user"].
End authKeys.

(** The object literal passed to [setAuth]. *)
Definition storeUser (u : User) : AuthStore.User :=
  {| AuthStore.id := id u; AuthStore.email := email u;
     AuthStore.name := name u; AuthStore.role := role u |}.

Definition setAuth (u : AuthStore.User) (t : string) : M unit :=
  modify (with_auth (AuthStore.setAuth u t)).

Definition logout : M unit := modify (with_auth AuthStore.logout).

Definition invalidateQueries (queryKey : list string) : M unit :=
  modify (record (InvalidateQueries queryKey)).

Definition removeQueries (queryKey : list string) : M unit :=
  modify (record (RemoveQueries queryKey)).

(** [useMutation]: the mutation function runs and on success [onSuccess]
    is awaited; whatever either of them throws goes to [onError], and the
    mutation then settles with that error. *)
Definition mutation {D} (mutationFn : M D)
    (onSuccess : D -> M unit) (onError : Err.Thrown -> M unit) : M D :=
  try_catch
    (data <~ mutationFn ;; onSuccess data ;;; ret data)
    (fun e => onError e ;;; throw e).

Definition noHandler : Err.Thrown -> M unit := fun _ => ret tt.

(** [if (data.session?.token) await SecureStore.setItemAsync(...)] *)
Definition storeTokenSecurely (data : AuthSession) : M unit :=
  match sessionToken data with
  | Some t =>
      if Js.truthy (Some t) then SecureStore.setItemAsync "swuva-auth-token" t
      else ret tt
  | None => ret tt
  end.

(** [if (data.user) setAuth({...}, data.session?.token || '')] *)
Definition updateAuthStore (data : AuthSession) : M unit :=
  match user data with
  | Some u => setAuth (storeUser u) (Js.or_str (sessionToken data) "")
  | None => ret tt
  end.

(** [select] of [useSession]: the one caller that passes the token as it
    is, under the guard [data?.user && data?.session]. *)
Definition selectSession (data : option AuthSession) : M (option AuthSession) :=
  match data with
  | Some d =>
      match user d, session d with
      | Some u, Some s => setAuth (storeUser u) (token s)
      | _, _ => ret tt
      end
  | None => ret tt
  end ;;;
  ret data.

Definition useSession (ax : Api.AxiosOutcome AuthSession) : M (option AuthSession) :=
  data <~ AuthService.getSession ax ;; selectSession data.

Definition useSignUp (ax : Api.AxiosOutcome AuthSession) : M AuthSession :=
  mutation (AuthService.signUp ax)
    (fun data =>
       storeTokenSecurely data ;;;
       invalidateQueries authKeys.session)
    noHandler.

Definition signInOnSuccess (data : AuthSession) : M unit :=
  storeTokenSecurely data ;;;
  updateAuthStore data ;;;
  invalidateQueries authKeys.session.

Definition useSignIn (ax : Api.AxiosOutcome AuthSession) : M AuthSession :=
  mutation (AuthService.signIn ax) signInOnSuccess noHandler.

Definition useVerifyEmailOTP (ax : Api.AxiosOutcome AuthSession) : M AuthSession :=
  mutation (AuthService.verifyEmailOTP ax)
    (fun data =>
       storeTokenSecurely data ;;;
       updateAuthStore data ;;;
       invalidateQueries authKeys.session)
    noHandler.

Definition useSignInWithOTP (ax : Api.AxiosOutcome AuthSession) : M AuthSession :=
  mutation (AuthService.signInWithOTP ax)
    (fun data =>
       storeTokenSecurely data ;;;
       updateAuthStore data ;;;
       invalidateQueries authKeys.session)
    noHandler.

(** Both handlers of [useSignOut] have the same three statements. *)
Definition useSignOut (ax : Api.AxiosOutcome unit) : M unit :=
  mutation (AuthService.signOut ax)
    (fun _ =>
       SecureStore.deleteItemAsync "swuva-auth-token" ;;;
       logout ;;;
       removeQueries authKeys.all)
    (fun _ =>
       SecureStore.deleteItemAsync "swuva-auth-token" ;;;
       logout ;;;
       removeQueries authKeys.all).

(** What the application can do to the session over its life.  [DoRestart]
    is a process restart: the store starts again from its initial values and
    hydrates from what [partialize] had persisted, or fails to load. *)
Inductive Action :=
| DoSignUp (ax : Api.AxiosOutcome AuthSession)
| DoSignIn (ax : Api.AxiosOutcome AuthSession)
| DoVerifyEmailOTP (ax : Api.AxiosOutcome AuthSession)
| DoSignInWithOTP (ax : Api.AxiosOutcome AuthSession)
| DoFetchSession (ax : Api.AxiosOutcome AuthSession)
| DoSignOut (ax : Api.AxiosOutcome unit)
| DoSetRememberedEmail (e : option string)
| DoRestart (loadFailure : option string).

Definition restart (loadFailure : option string) (s : AuthStore.AuthState)
    : AuthStore.AuthState :=
  AuthStore.rehydrate
    match loadFailure with
    | Some reason => AuthStore.LoadFailed reason
    | None => AuthStore.Loaded (AuthStore.partialize s)
    end
    AuthStore.initialState.

(** One action; a rejected mutation is reported to the screen and leaves
    the world as the handlers left it. *)
Definition perform (a : Action) (w : World) : World :=
  match a with
  | DoSignUp ax => snd (useSignUp ax w)
  | DoSignIn ax => snd (useSignIn ax w)
  | DoVerifyEmailOTP ax => snd (useVerifyEmailOTP ax w)
  | DoSignInWithOTP ax => snd (useSignInWithOTP ax w)
  | DoFetchSession ax => snd (useSession ax w)
  | DoSignOut ax => snd (useSignOut ax w)
  | DoSetRememberedEmail e => with_auth (AuthStore.setRememberedEmail e) w
  | DoRestart loadFailure => with_auth (restart loadFailure) w
  end.

Definition performAll (acts : list Action) (w : World) : World :=
  fold_left (fun w a => perform a w) acts w.

(** The world at first launch, once the store has hydrated from an empty
    durable storage: [secure0] and [faults] are whatever the device holds
    and will do. *)
Definition firstLaunch (secure0 : gmap string string) (faults : list bool) : World :=
  {| secure := secure0; secureFaults := faults;
     auth := AuthStore.rehydrate AuthStore.LoadedNothing AuthStore.initialState;
     calls := [] |}.

End UseAuth.

(** ** The splash screen's navigation effect ([app/splash.tsx]) *)

Module Splash.

(** The three targets of [router.replace]. *)
Inductive Route :=
| Tabs          (* '/(tabs)' *)
| Login         (* '/(auth)/login' *)
| Onboarding.   (* '/onboarding' *)

(** What [AsyncStorage.getItem(ONBOARDING_COMPLETED_KEY)] does. *)
Inductive GetItem :=
| GetRejects
| GetResolves (v : option string).

(** The values the effect reads, the ref that survives renders, the
    router's current route group (which the component never reads) and the
    [router.replace] calls made so far, oldest first. *)
Record State := {
  isAnimationComplete : bool;
  isHydrated : bool;
  isAuthenticated : bool;
  currentGroup : string;
  hasNavigatedRef : bool;
  replaced : list Route;
}.

Inductive Event :=
| AnimationComplete
| StoreHydrated (b : bool)
| StoreAuthenticated (b : bool)
| RouteGroup (g : string).

(** The inner [navigate] function. *)
Definition navigate (authenticated : bool) (flag : GetItem) : Route :=
  if authenticated then Tabs
  else match flag with
       | GetResolves (Some v) => if decide (v = "true") then Login else Onboarding
       | _ => Onboarding
       end.

(** The body of the effect. *)
Definition effect (flag : GetItem) (s : State) : State :=
  if negb (isAnimationComplete s) || negb (isHydrated s) || hasNavigatedRef s
  then s
  else {| isAnimationComplete := isAnimationComplete s;
          isHydrated := isHydrated s;
          isAuthenticated := isAuthenticated s;
          currentGroup := currentGroup s;
          hasNavigatedRef := true;
          replaced := replaced s ++ [navigate (isAuthenticated s) flag] |}.

(** The dependency list (the router object is stable). *)
Definition deps (s : State) : bool * bool * bool :=
  (isAnimationComplete s, isHydrated s, isAuthenticated s).

Definition update (e : Event) (s : State) : State :=
  match e with
  | AnimationComplete =>
      {| isAnimationComplete := true; isHydrated := isHydrated s;
         isAuthenticated := isAuthenticated s; currentGroup := currentGroup s;
         hasNavigatedRef := hasNavigatedRef s; replaced := replaced s |}
  | StoreHydrated b =>
      {| isAnimationComplete := isAnimationComplete s; isHydrated := b;
         isAuthenticated := isAuthenticated s; currentGroup := currentGroup s;
         hasNavigatedRef := hasNavigatedRef s; replaced := replaced s |}
  | StoreAuthenticated b =>
      {| isAnimationComplete := isAnimationComplete s; isHydrated := isHydrated s;
         isAuthenticated := b; currentGroup := currentGroup s;
         hasNavigatedRef := hasNavigatedRef s; replaced := replaced s |}
  | RouteGroup g =>
      {| isAnimationComplete := isAnimationComplete s; isHydrated := isHydrated s;
         isAuthenticated := isAuthenticated s; currentGroup := g;
         hasNavigatedRef := hasNavigatedRef s; replaced := replaced s |}
  end.

(** A render after an input changed: React re-runs the effect when a
    dependency differs from the previous render. *)
Definition step (flag : GetItem) (s : State) (e : Event) : State :=
  let s' := update e s in
  if decide (deps s' = deps s) then s' else effect flag s'.

(** First render: the animation has not completed; the effect runs once. *)
Definition mount (flag : GetItem) (hydrated authenticated : bool) (group : string) : State :=
  effect flag
    {| isAnimationComplete := false; isHydrated := hydrated;
       isAuthenticated := authenticated; currentGroup := group;
       hasNavigatedRef := false; replaced := [] |}.

Definition run (flag : GetItem) (es : list Event) (s : State) : State :=
  fold_left (step flag) es s.

(** Does the event change the pair the guard is specified over? *)
Definition changesGuardInput (s : State) (e : Event) : bool :=
  match e with
  | StoreAuthenticated b => negb (Bool.eqb b (isAuthenticated s))
  | RouteGroup g => if decide (g = currentGroup s) then false else true
  | _ => false
  end.

End Splash.

(** ** What a screen does that the user can observe *)

Module Ui.

Inductive Feedback := Light | Medium | Success | Error.

Inductive Effect :=
| Haptic (f : Feedback)
| Announce (msg : string)
| Alert (title body : string)
| KeyboardDismiss
| RouterReplace (path : string)
| RouterPush (pathname emailParam : string).

End Ui.

(** ** The OTP input ([src/components/auth/OTPInput.tsx]) *)

Module OTPInput.

Definition is_digit (c : ascii) : bool :=
  let n := nat_of_ascii c in (48 <=? n)%nat && (n <=? 57)%nat.

(** [text.replace(/[^0-9]/g, '').slice(-1)]: the last digit typed, if any. *)
Definition lastDigit (text : string) : option ascii :=
  last (List.filter is_digit (list_ascii_of_string text)).

(** [newValue[index] = c] followed by [join('')]: inside the array the
    slot is overwritten; beyond its end JavaScript extends the array with
    holes, which [join] prints as nothing, so the character lands at the end. *)
Definition assign (index : nat) (c : ascii) (chars : list ascii) : list ascii :=
  if decide (index < List.length chars) then <[index := c]> chars
  else (chars ++ [c])%list.

(** [handleDigitChange]: the value passed to [onChange], or [None] when the
    text holds no digit and [onChange] is not called. *)
Definition handleDigitChange (len : nat) (value text : string) (index : nat)
    : option string :=
  match lastDigit text with
  | Some digit =>
      Some (string_of_list_ascii
              (take len (assign index digit (list_ascii_of_string value))))
  | None => None
  end.

(** [handleKeyPress]: on Backspace the current slot is emptied when it holds
    a digit, otherwise the previous one. *)
Definition handleKeyPress (value key : string) (index : nat) : option string :=
  if decide (key = "Backspace") then
    let chars := list_ascii_of_string value in
    if decide (index < List.length chars) then
      Some (string_of_list_ascii (delete index chars))
    else if decide (0 < index) then
      Some (string_of_list_ascii (delete (index - 1) chars))
    else None
  else None.

End OTPInput.

(** ** The OTP verification screen

    One [Event] is one thing that happens to the mounted screen.

    React state ([otp], [error], [countdown], [canResend]) is read as the
    handlers set it: a handler that calls a state setter is followed by a
    render.  The two [isPending] flags come from the mutation observers:
    [mutate] puts the observer in its pending state at once, but the screen
    learns of it only at its next render, which the observer asks for in a
    later task.  So the screen keeps two values: what the observer holds
    ([verifyMutating], [resendMutating]) and what the last render read
    ([verifyPending], [resendPending]); guards and [disabled] props test
    the latter.  A handler that only calls [mutate] is followed by no
    render of its own; the render the observer asks for is the event
    [Rerender].

    The object returned by [useMutation] is new at every render, so
    [handleVerify] and with it the auto-verify effect are re-created at
    every render: the previous 300 ms timeout is cleared and a new one is
    set exactly when the effect's condition holds in that render.  A
    timeout that fires is spent. *)

Module VerifyOTP.

Definition OTP_LENGTH : nat := 6.
Definition RESEND_COOLDOWN : nat := 60.

Record Screen := {
  email : string;
  otp : string;
  error : option string;
  countdown : nat;
  canResend : bool;
  timerRef : bool;                        (* an interval is running *)
  verifyPending : bool;                   (* verifyOTP.isPending, as last rendered *)
  resendPending : bool;                   (* requestOTP.isPending, as last rendered *)
  verifyMutating : bool;                  (* the verify observer is pending *)
  resendMutating : bool;                  (* the resend observer is pending *)
  autoVerifyArmed : bool;                 (* the auto-verify timeout is set *)
  mounted : bool;
  verifyCalls : list (string * string);   (* verifyOTP.mutate({ email, otp }) *)
  resendCalls : list string;              (* requestOTP.mutate({ email, ... }) *)
  effects : list Ui.Effect;
}.

Definition set_otp (v : string) (s : Screen) : Screen :=
  {| email := email s; otp := v; error := error s; countdown := countdown s;
     canResend := canResend s; timerRef := timerRef s;
     verifyPending := verifyPending s; resendPending := resendPending s;
     verifyMutating := verifyMutating s; resendMutating := resendMutating s;
     autoVerifyArmed := autoVerifyArmed s;
     mounted := mounted s; verifyCalls := verifyCalls s;
     resendCalls := resendCalls s; effects := effects s |}.

Definition set_error (v : option string) (s : Screen) : Screen :=
  {| email := email s; otp := otp s; error := v; countdown := countdown s;
     canResend := canResend s; timerRef := timerRef s;
     verifyPending := verifyPending s; resendPending := resendPending s;
     verifyMutating := verifyMutating s; resendMutating := resendMutating s;
     autoVerifyArmed := autoVerifyArmed s;
     mounted := mounted s; verifyCalls := verifyCalls s;
     resendCalls := resendCalls s; effects := effects s |}.

Definition set_timer (n : nat) (ready running : bool) (s : Screen) : Screen :=
  {| email := email s; otp := otp s; error := error s; countdown := n;
     canResend := ready; timerRef := running;
     verifyPending := verifyPending s; resendPending := resendPending s;
     verifyMutating := verifyMutating s; resendMutating := resendMutating s;
     autoVerifyArmed := autoVerifyArmed s;
     mounted := mounted s; verifyCalls := verifyCalls s;
     resendCalls := resendCalls s; effects := effects s |}.

(** The verify observer's state and the calls of [verifyOTP.mutate]. *)
Definition set_verify (mutating : bool) (calls : list (string * string)) (s : Screen)
    : Screen :=
  {| email := email s; otp := otp s; error := error s; countdown := countdown s;
     canResend := canResend s; timerRef := timerRef s;
     verifyPending := verifyPending s; resendPending := resendPending s;
     verifyMutating := mutating; resendMutating := resendMutating s;
     autoVerifyArmed := autoVerifyArmed s;
     mounted := mounted s; verifyCalls := calls;
     resendCalls := resendCalls s; effects := effects s |}.

(** The resend observer's state and the calls of [requestOTP.mutate]. *)
Definition set_resend (mutating : bool) (calls : list string) (s : Screen) : Screen :=
  {| email := email s; otp := otp s; error := error s; countdown := countdown s;
     canResend := canResend s; timerRef := timerRef s;
     verifyPending := verifyPending s; resendPending := resendPending s;
     verifyMutating := verifyMutating s; resendMutating := mutating;
     autoVerifyArmed := autoVerifyArmed s;
     mounted := mounted s; verifyCalls := verifyCalls s;
     resendCalls := calls; effects := effects s |}.

(** What a render reads from the two observers. *)
Definition set_pending (verifying resending : bool) (s : Screen) : Screen :=
  {| email := email s; otp := otp s; error := error s; countdown := countdown s;
     canResend := canResend s; timerRef := timerRef s;
     verifyPending := verifying; resendPending := resending;
     verifyMutating := verifyMutating s; resendMutating := resendMutating s;
     autoVerifyArmed := autoVerifyArmed s;
     mounted := mounted s; verifyCalls := verifyCalls s;
     resendCalls := resendCalls s; effects := effects s |}.

Definition set_armed (armed : bool) (s : Screen) : Screen :=
  {| email := email s; otp := otp s; error := error s; countdown := countdown s;
     canResend := canResend s; timerRef := timerRef s;
     verifyPending := verifyPending s; resendPending := resendPending s;
     verifyMutating := verifyMutating s; resendMutating := resendMutating s;
     autoVerifyArmed := armed;
     mounted := mounted s; verifyCalls := verifyCalls s;
     resendCalls := resendCalls s; effects := effects s |}.

Definition emit (fx : list Ui.Effect) (s : Screen) : Screen :=
  {| email := email s; otp := otp s; error := error s; countdown := countdown s;
     canResend := canResend s; timerRef := timerRef s;
     verifyPending := verifyPending s; resendPending := resendPending s;
     verifyMutating := verifyMutating s; resendMutating := resendMutating s;
     autoVerifyArmed := autoVerifyArmed s;
     mounted := mounted s; verifyCalls := verifyCalls s;
     resendCalls := resendCalls s; effects := effects s ++ fx |}.

(** Leaving the screen: the mount effect's cleanup clears the interval, the
    auto-verify effect's cleanup clears its timeout. *)
Definition unmount (s : Screen) : Screen :=
  {| email := email s; otp := otp s; error := error s; countdown := countdown s;
     canResend := canResend s; timerRef := false;
     verifyPending := verifyPending s; resendPending := resendPending s;
     verifyMutating := verifyMutating s; resendMutating := resendMutating s;
     autoVerifyArmed := false;
     mounted := false; verifyCalls := verifyCalls s;
     resendCalls := resendCalls s; effects := effects s |}.

(** The condition of the auto-verify effect, on what the render holds. *)
Definition autoVerifyCondition (s : Screen) : bool :=
  bool_decide (String.length (otp s) = OTP_LENGTH)
  && negb (verifyPending s)
  && negb (Js.truthy (error s)).

(** A render: it reads the observers' current results, then the cleanup
    of the auto-verify effect clears the timeout and its body sets a new
    one when the condition holds. *)
Definition render (s : Screen) : Screen :=
  let s' := set_pending (verifyMutating s) (resendMutating s) s in
  set_armed (autoVerifyCondition s') s'.

(** [startCountdown] *)
Definition startCountdown (s : Screen) : Screen :=
  set_timer RESEND_COOLDOWN false true s.

(** The callback of [setInterval]. *)
Definition tick (s : Screen) : Screen :=
  if (countdown s <=? 1)%nat then set_timer 0 true false s
  else set_timer (countdown s - 1) (canResend s) (timerRef s) s.

(** [handleOtpChange] *)
Definition handleOtpChange (value : string) (s : Screen) : Screen :=
  let s' := set_otp value s in
  if Js.truthy (error s) then set_error None s' else s'.

(** [handleVerify]: there is no test of [isPending] in it.  With an
    incomplete code it sets the error, which renders; with a complete one
    it only calls [verifyOTP.mutate]. *)
Definition handleVerify (s : Screen) : Screen :=
  if decide (String.length (otp s) ≠ OTP_LENGTH) then
    render
      (emit [Ui.Haptic Ui.Error]
         (set_error (Some "Please enter the complete verification code") s))
  else
    set_verify true (verifyCalls s ++ [(email s, otp s)]) s.

(** [handleResend]: its guard tests the rendered [requestOTP.isPending];
    past the guard it only calls [requestOTP.mutate]. *)
Definition handleResend (s : Screen) : Screen :=
  if negb (canResend s) || resendPending s then s
  else set_resend true (resendCalls s ++ [email s]) s.

(** How a mutation settled, as the screen's callbacks see it. *)
Inductive Settled :=
| Succeeded
| Failed (err : Err.Thrown).

Inductive Event :=
| DigitChange (text : string) (index : nat)   (* onChangeText of one box *)
| KeyPress (key : string) (index : nat)       (* onKeyPress of one box *)
| PressContinue
| AutoVerifyTimeout                           (* the 300 ms timeout fires *)
| VerifySettled (r : Settled)
| Tick                                        (* the 1000 ms interval fires *)
| PressResend
| ResendSettled (r : Settled)
| Rerender                                    (* the render an observer asked for *)
| Unmount.

(** The per-call [onSuccess] / [onError] given to [verifyOTP.mutate]; the
    observer is no longer pending.  [router.replace('/(tabs)')] takes the
    screen off the stack; [setError] renders. *)
Definition verifySettled (r : Settled) (s : Screen) : Screen :=
  match r with
  | Succeeded =>
      unmount
        (emit [Ui.Haptic Ui.Success;
               Ui.Announce "Email verified successfully";
               Ui.RouterReplace "/(tabs)"]
           (set_verify false (verifyCalls s) s))
  | Failed err =>
      let message := Api.getErrorMessage err in
      render
        (emit [Ui.Haptic Ui.Error; Ui.Announce ("Error: " +:+ message)]
           (set_error (Some message) (set_verify false (verifyCalls s) s)))
  end.

(** The per-call [onSuccess] / [onError] given to [requestOTP.mutate]; the
    observer is no longer pending.  [onSuccess] sets state, which renders;
    [onError] only puts up an alert. *)
Definition resendSettled (r : Settled) (s : Screen) : Screen :=
  match r with
  | Succeeded =>
      render
        (set_error None
           (set_otp ""
              (startCountdown
                 (emit [Ui.Haptic Ui.Success; Ui.Announce "Verification code resent"]
                    (set_resend false (resendCalls s) s)))))
  | Failed err =>
      emit [Ui.Haptic Ui.Error; Ui.Alert "Error" (Api.getErrorMessage err)]
        (set_resend false (resendCalls s) s)
  end.

(** One event.  Each is offered only when the screen as last rendered
    allows it: the boxes are not editable while [isLoading]; the Continue
    button is disabled while [isLoading] or the code is incomplete; the
    resend button is rendered only when [canResend] and disabled while
    [isResending]; a timeout or interval fires only while it is set; an
    observer's callbacks run only while it is pending; nothing reaches an
    unmounted screen (its timers are cleared, its boxes and buttons are
    gone, and an observer without subscriber runs no per-call callback). *)
Definition step (s : Screen) (e : Event) : Screen :=
  if negb (mounted s) then s
  else match e with
  | DigitChange text index =>
      if verifyPending s then s
      else match OTPInput.handleDigitChange OTP_LENGTH (otp s) text index with
           | Some value => render (handleOtpChange value s)
           | None => s
           end
  | KeyPress key index =>
      if verifyPending s then s
      else match OTPInput.handleKeyPress (otp s) key index with
           | Some value => render (handleOtpChange value s)
           | None => s
           end
  | PressContinue =>
      if verifyPending s || negb (bool_decide (String.length (otp s) = OTP_LENGTH))
      then s else handleVerify s
  | AutoVerifyTimeout =>
      if autoVerifyArmed s then handleVerify (set_armed false s) else s
  | VerifySettled r =>
      if verifyMutating s then verifySettled r s else s
  | Tick =>
      if timerRef s then render (tick s) else s
  | PressResend =>
      if negb (canResend s) || resendPending s then s else handleResend s
  | ResendSettled r =>
      if resendMutating s then resendSettled r s else s
  | Rerender => render s
  | Unmount => unmount s
  end.

Definition run (es : list Event) (s : Screen) : Screen := fold_left step es s.

(** The screen after its first render and mount effect. *)
Definition mount (emailParam : string) : Screen :=
  startCountdown
    {| email := emailParam; otp := ""; error := None;
       countdown := RESEND_COOLDOWN; canResend := false; timerRef := false;
       verifyPending := false; resendPending := false;
       verifyMutating := false; resendMutating := false;
       autoVerifyArmed := false; mounted := true;
       verifyCalls := []; resendCalls := []; effects := [] |}.

(** The two states of the specification's countdown machine. *)
Inductive Phase :=
| COUNTING (secondsRemaining : nat)
| READY.

Definition phase (s : Screen) : Phase :=
  if canResend s then READY else COUNTING (countdown s).

End VerifyOTP.

(** ** The forgot-password screen ([app/(auth)/forgot-password.tsx]) *)

Module ForgotPassword.

Record ForgotPasswordResponse := {
  success : bool;
  message : string;
}.

Record Screen := {
  email : string;
  error : option string;
  touched : bool;
  isMountedRef : bool;
  effects : list Ui.Effect;
}.

Definition set_error (v : option string) (s : Screen) : Screen :=
  {| email := email s; error := v; touched := touched s;
     isMountedRef := isMountedRef s; effects := effects s |}.

Definition emit (fx : list Ui.Effect) (s : Screen) : Screen :=
  {| email := email s; error := error s; touched := touched s;
     isMountedRef := isMountedRef s; effects := effects s ++ fx |}.

(** [sanitizeEmail] of [src/utils/validation.ts] *)
Definition sanitizeEmail (e : string) : string := Js.toLowerCase (Js.trim e).

(** The two tests on the error message in [onError]. *)
Definition isRateLimited (message : string) : bool :=
  Js.includes (Js.toLowerCase message) "rate"
  || Js.includes (Js.toLowerCase message) "too many".

Definition isConnectionProblem (message : string) : bool :=
  Js.includes (Js.toLowerCase message) "network"
  || Js.includes (Js.toLowerCase message) "connection".

Definition onSuccess (sanitizedEmail : string) (s : Screen) : Screen :=
  if negb (isMountedRef s) then s
  else emit [Ui.Haptic Ui.Success;
             Ui.RouterPush "/(auth)/reset-password" sanitizedEmail] s.

Definition onError (sanitizedEmail : string) (err : Err.Thrown) (s : Screen) : Screen :=
  if negb (isMountedRef s) then s
  else
    let message := Api.getErrorMessage err in
    if isRateLimited message then
      emit [Ui.Haptic Ui.Error;
            Ui.Alert "Too Many Attempts"
              "Please wait a while before requesting another reset code."] s
    else if isConnectionProblem message then
      emit [Ui.Haptic Ui.Error;
            Ui.Alert "Connection Error"
              "Unable to connect. Please check your internet and try again."] s
    else
      emit [Ui.Haptic Ui.Success;
            Ui.RouterPush "/(auth)/reset-password" sanitizedEmail] s.

Section WithRegex.

(** [EMAIL_REGEX.test], the platform's regular-expression engine applied
    to the fixed pattern of [src/utils/validation.ts]. *)
Variable EMAIL_REGEX_test : string -> bool.

Definition validateEmail (e : string) : bool := EMAIL_REGEX_test (Js.trim e).

(** [validateForm]: the verdict and the screen with the error it set. *)
Definition validateForm (emailToValidate : string) (s : Screen) : bool * Screen :=
  let trimmedEmail := Js.trim emailToValidate in
  if decide (trimmedEmail = "") then (false, set_error (Some "Email is required") s)
  else if negb (validateEmail trimmedEmail)
       then (false, set_error (Some "Please enter a valid email") s)
       else (true, s).

(** [handleSubmit], with the way the mutation settles as an input. *)
Definition handleSubmit (reply : Outcome ForgotPasswordResponse) (s : Screen) : Screen :=
  let s0 := emit [Ui.KeyboardDismiss] s in
  let '(valid, s1) := validateForm (email s0) s0 in
  if negb valid then emit [Ui.Haptic Ui.Error] s1
  else
    let s2 := emit [Ui.Haptic Ui.Medium] s1 in
    let sanitizedEmail := sanitizeEmail (email s) in
    match reply with
    | Ok _ => onSuccess sanitizedEmail s2
    | Throw err => onError sanitizedEmail err s2
    end.

End WithRegex.

(** The [router.push] calls among the effects: what an observer of the
    screen's navigation sees. *)
Definition navigations (fx : list Ui.Effect) : list (string * string) :=
  omap (fun e => match e with
                 | Ui.RouterPush p q => Some (p, q)
                 | _ => None
                 end) fx.

End ForgotPassword.

(** ** The shared API client: the request interceptor *)

Module ApiRequest.

(** The part of the request configuration the interceptor reads and
    writes. *)
Record Config := {
  method : option string;
  url : option string;
  headers : gmap string string;
}.

Definition setHeader (name value : string) (config : Config) : Config :=
  {| method := method config; url := url config;
     headers := <[name := value]> (headers config) |}.

(** [SecureStore.getItemAsync]: the stored value, or [null]; like every
    secure-store call it may reject. *)
Definition getItemAsync (key : string) : M (option string) :=
  fun w =>
    let '(fault, w1) := nextFault w in
    if fault then (Throw SecureStore.failure, w1)
    else (Ok (secure w1 !! key), w1).

Section WithPlatform.

(** [Platform.OS] and [process.env.EXPO_PUBLIC_APP_VERSION]. *)
Variable Platform_OS : string.
Variable EXPO_PUBLIC_APP_VERSION : option string.

(** The fulfilled handler of [api.interceptors.request]. *)
Definition onRequest (config : Config) : M Config :=
  config' <~ try_catch
               (token <~ getItemAsync "swuva-auth-token" ;;
                match token with
                | Some t =>
                    if Js.truthy (Some t)
                    then ret (setHeader "Authorization" ("Bearer " +:+ t) config)
                    else ret config
                | None => ret config
                end)
               (fun _ => ret config) ;;
  ret (setHeader "X-App-Version" (Js.or_str EXPO_PUBLIC_APP_VERSION "1.0.0")
         (setHeader "X-Platform" Platform_OS config')).

End WithPlatform.

End ApiRequest.

(** ** The OTP verification screen: what it displays *)

Module VerifyOTPView.

(** [String.prototype.split] with a one-character separator. *)
Fixpoint split (sep : ascii) (s : string) : list string :=
  match s with
  | EmptyString => [EmptyString]
  | String c r =>
      if Ascii.eqb c sep then EmptyString :: split sep r
      else match split sep r with
           | h :: t => String c h :: t
           | [] => [String c EmptyString]
           end
  end.

(** [maskEmail]: the destructuring takes the first two pieces of the
    split; a missing or empty piece is falsy.  [length] and [slice] of the
    local part are the code's when it is ASCII. *)
Definition maskEmail (email : string) : string :=
  let parts := split "@" email in
  match parts !! 0%nat, parts !! 1%nat with
  | Some localPart, Some domain =>
      if decide (localPart = "") then email
      else if decide (domain = "") then email
      else
        let visibleChars := Nat.min 2 (String.length localPart) in
        let masked := substring 0 visibleChars localPart +:+ "***" in
        masked +:+ "@" +:+ domain
  | _, _ => email
  end.

(** [String.prototype.padStart] with a one-character filler. *)
Definition padStart (targetLength : nat) (filler : ascii) (s : string) : string :=
  string_of_list_ascii (replicate (targetLength - String.length s) filler) +:+ s.

(** [formatCountdown], on the non-negative whole seconds the state holds. *)
Definition formatCountdown (seconds : nat) : string :=
  let mins := seconds / 60 in
  let secs := seconds mod 60 in
  padStart 2 "0" (pretty mins) +:+ ":" +:+ padStart 2 "0" (pretty secs).

End VerifyOTPView.

(** ** Password validation ([src/utils/validation.ts]) *)

Module Validation.

Definition PASSWORD_MIN_LENGTH : nat := 8.

(** [password.length >= PASSWORD_MIN_LENGTH]; the length is the code's on
    ASCII text. *)
Definition validatePassword (password : string) : bool :=
  (PASSWORD_MIN_LENGTH <=? String.length password)%nat.

(** [/[...]/.test(password)] for a character class. *)
Definition test (class : ascii -> bool) (password : string) : bool :=
  existsb class (list_ascii_of_string password).

Definition lower (c : ascii) : bool :=
  let n := nat_of_ascii c in (97 <=? n)%nat && (n <=? 122)%nat.

Definition upper (c : ascii) : bool :=
  let n := nat_of_ascii c in (65 <=? n)%nat && (n <=? 90)%nat.

Definition digit (c : ascii) : bool :=
  let n := nat_of_ascii c in (48 <=? n)%nat && (n <=? 57)%nat.

(** [[^a-zA-Z\d]] *)
Definition other (c : ascii) : bool := negb (lower c || upper c || digit c).

Record PasswordStrength := {
  score : nat;
  label : string;
  color : string;
}.

Definition levels : list (string * string) :=
  [("Weak", "#ef4444"); ("Fair", "#f97316"); ("Good", "#eab308"); ("Strong", "#22c55e")].

Definition bump (b : bool) : nat := if b then 1 else 0.

(** [levels[index]]: an index below 0 or past the end reads [undefined]. *)
Definition level (index : Z) : option (string * string) :=
  if (index <? 0)%Z then None else levels !! Z.to_nat index.

(** [getPasswordStrength]; its two tests of the length are the code's on
    ASCII text. *)
Definition getPasswordStrength (password : string) : PasswordStrength :=
  if (String.length password <? PASSWORD_MIN_LENGTH)%nat then
    {| score := 0; label := "Too Short"; color := "#9ca3af" |}
  else
    let score :=
      bump (8 <=? String.length password)%nat
      + bump (12 <=? String.length password)%nat
      + bump (test lower password && test upper password)
      + bump (test digit password)
      + bump (test other password) in
    let index := Z.min (Z.of_nat score - 1) (Z.of_nat (List.length levels) - 1) in
    {| score := score;
       label := Js.or_str (fst <$> level index) "Weak";
       color := Js.or_str (snd <$> level index) "#ef4444" |}.

(** [sanitizeInput] *)
Definition sanitizeInput (input : string) : string := Js.trim input.

End Validation.

(** ** The forgot-password screen: the email field *)

Module ForgotPasswordForm.

Import ForgotPassword.

Definition set_email (v : string) (s : Screen) : Screen :=
  {| email := v; error := error s; touched := touched s;
     isMountedRef := isMountedRef s; effects := effects s |}.

Definition set_touched (v : bool) (s : Screen) : Screen :=
  {| email := email s; error := error s; touched := v;
     isMountedRef := isMountedRef s; effects := effects s |}.

Section WithRegex.

Variable EMAIL_REGEX_test : string -> bool.

(** [handleEmailChange]: typing clears the error, and only once the field
    has been touched and the text has become a valid email. *)
Definition handleEmailChange (text : string) (s : Screen) : Screen :=
  let s' := set_email text s in
  if touched s then
    let trimmed := Js.trim text in
    if Js.truthy (Some trimmed) && validateEmail EMAIL_REGEX_test trimmed
    then set_error None s' else s'
  else s'.

(** [handleEmailBlur] *)
Definition handleEmailBlur (s : Screen) : Screen :=
  let s' := set_touched true s in
  let trimmedEmail := Js.trim (email s) in
  if decide (trimmedEmail = "") then set_error (Some "Email is required") s'
  else if negb (validateEmail EMAIL_REGEX_test trimmedEmail)
       then set_error (Some "Please enter a valid email") s'
       else set_error None s'.

End WithRegex.

End ForgotPasswordForm.

(** ** The login screen *)

Module Login.

Definition REMEMBERED_EMAIL_KEY : string := "swuva-remembered-email".

(** The [errors] object: a missing key is [None]. *)
Record Errors := {
  err_email : option string;
  err_password : option string;
}.

(** The screen's state, the content of AsyncStorage, the calls of
    [signIn.mutate] (email, password, rememberMe) and the visible effects,
    oldest first. *)
Record Screen := {
  email : string;
  password : string;
  rememberMe : bool;
  rememberMeRef : bool;
  errors : Errors;
  asyncStorage : gmap string string;
  signInCalls : list (string * string * bool);
  effects : list Ui.Effect;
}.

Definition set_email (v : string) (s : Screen) : Screen :=
  {| email := v; password := password s; rememberMe := rememberMe s;
     rememberMeRef := rememberMeRef s; errors := errors s;
     asyncStorage := asyncStorage s; signInCalls := signInCalls s;
     effects := effects s |}.

Definition set_password (v : string) (s : Screen) : Screen :=
  {| email := email s; password := v; rememberMe := rememberMe s;
     rememberMeRef := rememberMeRef s; errors := errors s;
     asyncStorage := asyncStorage s; signInCalls := signInCalls s;
     effects := effects s |}.

Definition set_remember (v : bool) (s : Screen) : Screen :=
  {| email := email s; password := password s; rememberMe := v;
     rememberMeRef := v; errors := errors s;
     asyncStorage := asyncStorage s; signInCalls := signInCalls s;
     effects := effects s |}.

Definition set_errors (v : Errors) (s : Screen) : Screen :=
  {| email := email s; password := password s; rememberMe := rememberMe s;
     rememberMeRef := rememberMeRef s; errors := v;
     asyncStorage := asyncStorage s; signInCalls := signInCalls s;
     effects := effects s |}.

Definition with_storage (f : gmap string string -> gmap string string) (s : Screen)
    : Screen :=
  {| email := email s; password := password s; rememberMe := rememberMe s;
     rememberMeRef := rememberMeRef s; errors := errors s;
     asyncStorage := f (asyncStorage s); signInCalls := signInCalls s;
     effects := effects s |}.

Definition call_signIn (c : string * string * bool) (s : Screen) : Screen :=
  {| email := email s; password := password s; rememberMe := rememberMe s;
     rememberMeRef := rememberMeRef s; errors := errors s;
     asyncStorage := asyncStorage s; signInCalls := signInCalls s ++ [c];
     effects := effects s |}.

Definition emit (fx : list Ui.Effect) (s : Screen) : Screen :=
  {| email := email s; password := password s; rememberMe := rememberMe s;
     rememberMeRef := rememberMeRef s; errors := errors s;
     asyncStorage := asyncStorage s; signInCalls := signInCalls s;
     effects := effects s ++ fx |}.

(** [loadRememberedEmail], run by the mount effect.  [storageOk] says
    whether the AsyncStorage call goes through; a rejection is ignored. *)
Definition loadRememberedEmail (storageOk isMounted : bool) (s : Screen) : Screen :=
  if storageOk then
    if negb isMounted then s
    else match asyncStorage s !! REMEMBERED_EMAIL_KEY with
         | Some storedEmail =>
             if Js.truthy (Some storedEmail)
             then set_remember true (set_email storedEmail s)
             else s
         | None => s
         end
  else s.

Definition handleEmailChange (text : string) (s : Screen) : Screen :=
  let s' := set_email text s in
  if Js.truthy (err_email (errors s))
  then set_errors {| err_email := None; err_password := err_password (errors s) |} s'
  else s'.

Definition handlePasswordChange (text : string) (s : Screen) : Screen :=
  let s' := set_password text s in
  if Js.truthy (err_password (errors s))
  then set_errors {| err_email := err_email (errors s); err_password := None |} s'
  else s'.

(** [toggleRememberMe]: turning the flag off removes the stored email at
    once; a rejected removal is ignored. *)
Definition toggleRememberMe (storageOk : bool) (s : Screen) : Screen :=
  let s1 := emit [Ui.Haptic Ui.Light] s in
  let newValue := negb (rememberMeRef s) in
  let s2 := set_remember newValue s1 in
  if negb newValue then
    if storageOk then with_storage (delete REMEMBERED_EMAIL_KEY) s2 else s2
  else s2.

(** The two tests of the error message in the per-call [onError]. *)
Definition isCredentialError (message : string) : bool :=
  Js.includes (Js.toLowerCase message) "credential"
  || Js.includes (Js.toLowerCase message) "password".

Definition isUnknownUser (message : string) : bool :=
  Js.includes (Js.toLowerCase message) "not found"
  || Js.includes (Js.toLowerCase message) "no user".

(** The per-call [onSuccess] and [onError] given to [signIn.mutate]. *)
Definition loginSettled (r : Outcome AuthTypes.AuthSession) (s : Screen) : Screen :=
  match r with
  | Ok _ => emit [Ui.Haptic Ui.Success; Ui.RouterReplace "/(tabs)"] s
  | Throw err =>
      let s1 := emit [Ui.Haptic Ui.Error] s in
      let message := Api.getErrorMessage err in
      if isCredentialError message then
        set_errors {| err_email := err_email (errors s1);
                      err_password := Some "Invalid email or password" |} s1
      else if isUnknownUser message then
        set_errors {| err_email := Some "No account found with this email";
                      err_password := err_password (errors s1) |} s1
      else emit [Ui.Alert "Login Failed" message] s1
  end.

Section WithRegex.

Variable EMAIL_REGEX_test : string -> bool.

(** [validateForm]: the errors found, all at once.  The trimmed email and
    the length test of the password are the code's on ASCII text. *)
Definition newErrors (s : Screen) : Errors :=
  let trimmedEmail := Js.trim (email s) in
  {| err_email :=
       if decide (trimmedEmail = "") then Some "Email is required"
       else if negb (ForgotPassword.validateEmail EMAIL_REGEX_test trimmedEmail)
            then Some "Please enter a valid email"
            else None;
     err_password :=
       if decide (password s = "") then Some "Password is required"
       else if negb (Validation.validatePassword (password s))
            then Some ("Password must be at least "
                       +:+ pretty Validation.PASSWORD_MIN_LENGTH +:+ " characters")
            else None |}.

Definition validateForm (s : Screen) : bool * Screen :=
  let e := newErrors s in
  (match err_email e, err_password e with
   | None, None => true
   | _, _ => false
   end, set_errors e s).

(** [handleLogin] up to and including [signIn.mutate]. *)
Definition handleLogin (storageOk : bool) (s : Screen) : Screen :=
  let shouldRemember := rememberMeRef s in
  let '(valid, s1) := validateForm s in
  if negb valid then emit [Ui.Haptic Ui.Error] s1
  else
    let s2 := emit [Ui.Haptic Ui.Medium] s1 in
    let sanitizedEmail := ForgotPassword.sanitizeEmail (email s) in
    let s3 :=
      if storageOk then
        if shouldRemember
        then with_storage (insert REMEMBERED_EMAIL_KEY sanitizedEmail) s2
        else with_storage (delete REMEMBERED_EMAIL_KEY) s2
      else s2 in
    call_signIn (sanitizedEmail, password s, shouldRemember) s3.

End WithRegex.

End Login.

(** ** The register screen *)

Module Register.

Inductive Feedback := Medium | Success | Warning | Error.

Inductive Effect :=
| Haptic (f : Feedback)
| Alert (title body : string)
| PushVerifyOtp (emailParam nameParam : string).   (* '/(auth)/verify-otp' *)

Record Errors := {
  err_fullName : option string;
  err_email : option string;
  err_password : option string;
  err_confirmPassword : option string;
  err_terms : option string;
}.

(** The screen's state, the inputs of [signUp.mutate] (email, password,
    name) and of [requestOTP.mutate] (email, type), and the effects. *)
Record Screen := {
  fullName : string;
  email : string;
  password : string;
  confirmPassword : string;
  agreeToTerms : bool;
  errors : Errors;
  signUpCalls : list (string * string * string);
  otpCalls : list (string * string);
  effects : list Effect;
}.

Definition set_errors (v : Errors) (s : Screen) : Screen :=
  {| fullName := fullName s; email := email s; password := password s;
     confirmPassword := confirmPassword s; agreeToTerms := agreeToTerms s;
     errors := v; signUpCalls := signUpCalls s; otpCalls := otpCalls s;
     effects := effects s |}.

Definition emit (fx : list Effect) (s : Screen) : Screen :=
  {| fullName := fullName s; email := email s; password := password s;
     confirmPassword := confirmPassword s; agreeToTerms := agreeToTerms s;
     errors := errors s; signUpCalls := signUpCalls s; otpCalls := otpCalls s;
     effects := effects s ++ fx |}.

Definition call_signUp (c : string * string * string) (s : Screen) : Screen :=
  {| fullName := fullName s; email := email s; password := password s;
     confirmPassword := confirmPassword s; agreeToTerms := agreeToTerms s;
     errors := errors s; signUpCalls := signUpCalls s ++ [c];
     otpCalls := otpCalls s; effects := effects s |}.

Definition call_requestOTP (c : string * string) (s : Screen) : Screen :=
  {| fullName := fullName s; email := email s; password := password s;
     confirmPassword := confirmPassword s; agreeToTerms := agreeToTerms s;
     errors := errors s; signUpCalls := signUpCalls s;
     otpCalls := otpCalls s ++ [c]; effects := effects s |}.

(** The test of the error message in the [onError] of the sign-up. *)
Definition isEmailTaken (message : string) : bool :=
  Js.includes (Js.toLowerCase message) "email"
  && Js.includes (Js.toLowerCase message) "exist".

Section WithRegex.

Variable EMAIL_REGEX_test : string -> bool.

(** [validateForm]: the errors found.  The trimmed name and email and the
    two length tests are the code's on ASCII text. *)
Definition newErrors (s : Screen) : Errors :=
  let trimmedName := Js.trim (fullName s) in
  let trimmedEmail := Js.trim (email s) in
  {| err_fullName :=
       if decide (trimmedName = "") then Some "Full name is required"
       else if (String.length trimmedName <? 2)%nat
            then Some "Name must be at least 2 characters"
            else None;
     err_email :=
       if decide (trimmedEmail = "") then Some "Email is required"
       else if negb (ForgotPassword.validateEmail EMAIL_REGEX_test trimmedEmail)
            then Some "Please enter a valid email"
            else None;
     err_password :=
       if decide (password s = "") then Some "Password is required"
       else if negb (Validation.validatePassword (password s))
            then Some ("Password must be at least "
                       +:+ pretty Validation.PASSWORD_MIN_LENGTH +:+ " characters")
            else None;
     err_confirmPassword :=
       if decide (confirmPassword s = "") then Some "Please confirm your password"
       else if decide (password s ≠ confirmPassword s)
            then Some "Passwords do not match"
            else None;
     err_terms :=
       if negb (agreeToTerms s) then Some "You must agree to the terms and conditions"
       else None |}.

Definition noErrors (e : Errors) : bool :=
  match err_fullName e, err_email e, err_password e, err_confirmPassword e, err_terms e with
  | None, None, None, None, None => true
  | _, _, _, _, _ => false
  end.

Definition validateForm (s : Screen) : bool * Screen :=
  let e := newErrors s in (noErrors e, set_errors e s).

(** [handleRegister], with the way the two mutations settle as inputs:
    the OTP request is started only in the [onSuccess] of the sign-up. *)
Definition handleRegister {A B} (signUpReply : Outcome A) (otpReply : Outcome B)
    (s : Screen) : Screen :=
  let '(valid, s1) := validateForm s in
  if negb valid then emit [Haptic Error] s1
  else
    let s2 := emit [Haptic Medium] s1 in
    let sanitizedName := Validation.sanitizeInput (fullName s) in
    let sanitizedEmail := ForgotPassword.sanitizeEmail (email s) in
    let s3 := call_signUp (sanitizedEmail, password s, sanitizedName) s2 in
    match signUpReply with
    | Ok _ =>
        let s4 := call_requestOTP (sanitizedEmail, "email-verification") s3 in
        match otpReply with
        | Ok _ =>
            emit [Haptic Success; PushVerifyOtp sanitizedEmail sanitizedName] s4
        | Throw _ =>
            emit [Haptic Warning; PushVerifyOtp sanitizedEmail sanitizedName] s4
        end
    | Throw err =>
        let s4 := emit [Haptic Error] s3 in
        let message := Api.getErrorMessage err in
        if isEmailTaken message then
          set_errors {| err_fullName := err_fullName (errors s4);
                        err_email := Some "This email is already registered";
                        err_password := err_password (errors s4);
                        err_confirmPassword := err_confirmPassword (errors s4);
                        err_terms := err_terms (errors s4) |} s4
        else emit [Alert "Registration Failed" message] s4
    end.

End WithRegex.

(** The navigations among the effects. *)
Definition pushes (fx : list Effect) : list (string * string) :=
  omap (fun e => match e with
                 | PushVerifyOtp e n => Some (e, n)
                 | _ => None
                 end) fx.

End Register.

(** ** Vocabulary of the properties *)

Module Props.

(** A computation maintains the property [I] of the session store. *)
Definition preserves (I : AuthStore.AuthState -> Prop) {A} (c : M A) : Prop :=
  ∀ w, I (auth w) → I (auth (snd (c w))).

(** No secure-store call rejects from now on. *)
Definition reliable (w : World) : Prop :=
  Forall (fun fault => fault = false) (secureFaults w).

(** The session invariant in the specification's words: an authenticated
    store has a non-empty token and a non-null user. *)
Definition sessionInvariant (s : AuthStore.AuthState) : Prop :=
  AuthStore.isAuthenticated s = true →
  (∃ t, AuthStore.token s = Some t ∧ t ≠ "") ∧ AuthStore.user s ≠ None.

(** What the code maintains: an authenticated store has a user and a token
    string, which may be empty. *)
Definition sessionPresent (s : AuthStore.AuthState) : Prop :=
  AuthStore.isAuthenticated s = true →
  is_Some (AuthStore.user s) ∧ is_Some (AuthStore.token s).

Definition loggedOut (s : AuthStore.AuthState) : Prop :=
  AuthStore.user s = None ∧ AuthStore.token s = None
  ∧ AuthStore.isAuthenticated s = false.

(** The store a success handler leaves behind, given the response. *)
Definition afterSuccess (data : AuthTypes.AuthSession) (s : AuthStore.AuthState)
    : AuthStore.AuthState :=
  match AuthTypes.user data with
  | Some u =>
      AuthStore.setAuth (UseAuth.storeUser u)
        (Js.or_str (AuthTypes.sessionToken data) "") s
  | None => s
  end.

(** The navigation guard in the specification's words: no redirect while
    the store is not hydrated, and once it is, one redirect decision for
    each change of the authentication flag or of the route group. *)
Definition guardRerunsOnEveryChange (flag : Splash.GetItem) : Prop :=
  ∀ hydrated authenticated group es e,
    let s := Splash.run flag es (Splash.mount flag hydrated authenticated group) in
    let s' := Splash.step flag s e in
    (Splash.isHydrated s' = false → Splash.replaced s' = Splash.replaced s)
    ∧ (Splash.isHydrated s = true → Splash.changesGuardInput s e = true →
       List.length (Splash.replaced s') = S (List.length (Splash.replaced s))).

(** The splash ref counts the decisions, and is set as soon as the
    animation has completed on a hydrated store. *)
Definition decidedOnce (s : Splash.State) : Prop :=
  List.length (Splash.replaced s) = (if Splash.hasNavigatedRef s then 1 else 0)
  ∧ (Splash.isAnimationComplete s && Splash.isHydrated s = true →
     Splash.hasNavigatedRef s = true).

End Props.

(** ** Vocabulary of the further properties *)

Module MoreProps.

(** A computation leaves a reliable secure store reliable. *)
Definition settles {A} (c : M A) : Prop :=
  ∀ w, Props.reliable w → Props.reliable (snd (c w)).

(** The four mutations that carry an auth payload. *)
Definition authMutations
    : list (Api.AxiosOutcome AuthTypes.AuthSession -> M AuthTypes.AuthSession) :=
  [UseAuth.useSignUp; UseAuth.useSignIn; UseAuth.useVerifyEmailOTP;
   UseAuth.useSignInWithOTP].

(** The three of them that write the session store. *)
Definition signInMutations
    : list (Api.AxiosOutcome AuthTypes.AuthSession -> M AuthTypes.AuthSession) :=
  [UseAuth.useSignIn; UseAuth.useVerifyEmailOTP; UseAuth.useSignInWithOTP].

(** The event does not change the authentication status [a]. *)
Definition authStays (a : bool) (e : Splash.Event) : bool :=
  match e with
  | Splash.StoreAuthenticated b => Bool.eqb b a
  | _ => true
  end.

(** The OTP screen's timer fields are consistent: the countdown never
    exceeds the cooldown, a running interval has at least one second left
    and no resend button, and a resend button means the countdown is at 0
    with the interval stopped. *)
Definition timerConsistent (s : VerifyOTP.Screen) : Prop :=
  (VerifyOTP.countdown s ≤ VerifyOTP.RESEND_COOLDOWN)%nat
  ∧ (VerifyOTP.timerRef s = true →
     VerifyOTP.canResend s = false ∧ (1 ≤ VerifyOTP.countdown s)%nat)
  ∧ (VerifyOTP.canResend s = true →
     VerifyOTP.countdown s = 0 ∧ VerifyOTP.timerRef s = false).

Definition isTick (e : VerifyOTP.Event) : bool :=
  match e with
  | VerifyOTP.Tick => true
  | _ => false
  end.

(** Typing the characters [ds] one after the other into the boxes
    [from], [from + 1], ... *)
Fixpoint typeDigits (from : nat) (ds : list ascii) : list VerifyOTP.Event :=
  match ds with
  | [] => []
  | d :: rest =>
      VerifyOTP.DigitChange (String d EmptyString) from :: typeDigits (S from) rest
  end.

Definition allDigits (v : string) : Prop :=
  Forall (fun c => OTPInput.is_digit c = true) (list_ascii_of_string v).

(** Two decimal digits, tens first. *)
Definition twoDigits (n : nat) : string :=
  String (ascii_of_nat (48 + n / 10)) (String (ascii_of_nat (48 + n mod 10)) EmptyString).

(** The text is ASCII.  The strings of this file are byte strings; on ASCII
    text they are the code's strings, unit by unit: [String.length] is
    [length], [substring] is [slice], [Js.trim] is [trim] and
    [Js.toLowerCase] is [toLowerCase]. *)
Definition isAscii (v : string) : bool :=
  forallb (fun c => (nat_of_ascii c <? 128)%nat) (list_ascii_of_string v).

(** The string holds no '@'. *)
Fixpoint noAt (s : string) : Prop :=
  match s with
  | EmptyString => True
  | String c r => c ≠ "@"%char ∧ noAt r
  end.

End MoreProps.

(** * Properties *)

(** ** The session store *)

Section StoreFacts.

Import AuthStore.

Lemma setAuth_reads_back (u : User) (t : string) (s : AuthState) :
  user (setAuth u t s) = Some u ∧ token (setAuth u t s) = Some t
  ∧ isAuthenticated (setAuth u t s) = true.
Proof. done. Qed.

Lemma partialize_merge (s s0 : AuthState) :
  merge (partialize s) s0 = setHydrated (isHydrated s0) s.
Proof. by destruct s. Qed.

(** C5.  Whatever the store holds, [logout()] sets [user] and [token] to
    null and [isAuthenticated] to false, and leaves [rememberedEmail] and
    [isHydrated] as they were; the remembered email that gets persisted
    afterwards is the one that was there before. *)
Theorem logout_keeps_rememberedEmail (s : AuthState) :
  user (logout s) = None
  ∧ token (logout s) = None
  ∧ isAuthenticated (logout s) = false
  ∧ rememberedEmail (logout s) = rememberedEmail s
  ∧ isHydrated (logout s) = isHydrated s
  ∧ p_rememberedEmail (partialize (logout s)) = rememberedEmail s.
Proof. by destruct s. Qed.

Lemma rehydrate_hydrated (r : LoadResult) (s : AuthState) :
  isHydrated (rehydrate r s) = true.
Proof. by destruct r. Qed.

Lemma rehydrate_failed (reason : string) (s : AuthState) :
  rehydrate (LoadFailed reason) s = setHydrated true s.
Proof. done. Qed.

End StoreFacts.

(** ** Computations that maintain a property of the session store *)

Section Preserves.

Variable I : AuthStore.AuthState -> Prop.

Local Abbreviation preserves := (Props.preserves I).

Lemma preserves_ret {A} (a : A) : preserves (ret a).
Proof. by intros w. Qed.

Lemma preserves_throw {A} (e : Err.Thrown) : preserves (@throw A e).
Proof. by intros w. Qed.

Lemma preserves_bind {A B} (c : M A) (k : A -> M B) :
  preserves c → (∀ a, preserves (k a)) → preserves (World.bind c k).
Proof.
  intros Hc Hk w Hw. unfold World.bind.
  specialize (Hc w Hw). destruct (c w) as [[a|e] w']; simpl in *.
  - by apply Hk.
  - done.
Qed.

Lemma preserves_try_catch {A} (c : M A) (h : Err.Thrown -> M A) :
  preserves c → (∀ e, preserves (h e)) → preserves (try_catch c h).
Proof.
  intros Hc Hh w Hw. unfold try_catch.
  specialize (Hc w Hw). destruct (c w) as [[a|e] w']; simpl in *.
  - done.
  - by apply Hh.
Qed.

Lemma preserves_record (c : Call) : preserves (modify (record c)).
Proof. by intros w. Qed.

Lemma preserves_with_auth (f : AuthStore.AuthState -> AuthStore.AuthState) :
  (∀ s, I s → I (f s)) → preserves (modify (with_auth f)).
Proof. intros Hf w Hw. by apply Hf. Qed.

Lemma nextFault_auth (w : World) : auth (snd (nextFault w)) = auth w.
Proof. unfold nextFault. by destruct (secureFaults w). Qed.

Lemma preserves_setItemAsync (key value : string) :
  preserves (SecureStore.setItemAsync key value).
Proof.
  intros w Hw. unfold SecureStore.setItemAsync.
  pose proof (nextFault_auth (record (SecureSet key value) w)) as Ha.
  destruct (nextFault _) as [[] w1]; simpl in *; by rewrite Ha.
Qed.

Lemma preserves_deleteItemAsync (key : string) :
  preserves (SecureStore.deleteItemAsync key).
Proof.
  intros w Hw. unfold SecureStore.deleteItemAsync.
  pose proof (nextFault_auth (record (SecureDelete key) w)) as Ha.
  destruct (nextFault _) as [[] w1]; simpl in *; by rewrite Ha.
Qed.

Lemma preserves_onRejected {D} (error : Err.AxiosError) :
  preserves (@Api.onRejected D error).
Proof.
  unfold Api.onRejected. apply preserves_bind.
  - case_decide.
    + apply preserves_try_catch.
      * apply preserves_bind; intros; apply preserves_deleteItemAsync.
      * intros. apply preserves_ret.
    + apply preserves_ret.
  - intros. apply preserves_throw.
Qed.

Lemma preserves_request {D} (ax : Api.AxiosOutcome D) :
  preserves (Api.request ax).
Proof.
  destruct ax; [apply preserves_ret | apply preserves_onRejected].
Qed.

Lemma preserves_mutation {D} (fn : M D) (onSuccess : D -> M unit)
    (onError : Err.Thrown -> M unit) :
  preserves fn → (∀ d, preserves (onSuccess d)) → (∀ e, preserves (onError e)) →
  preserves (UseAuth.mutation fn onSuccess onError).
Proof.
  intros Hfn Hs He. unfold UseAuth.mutation.
  apply preserves_try_catch.
  - apply preserves_bind; [done|]. intros d.
    apply preserves_bind; [apply Hs|]. intros. apply preserves_ret.
  - intros e. apply preserves_bind; [apply He|]. intros. apply preserves_throw.
Qed.

(** The two writes the hooks make to the store, and what a restart and the
    remember-me toggle do, are all the property has to survive. *)
Hypothesis I_setAuth : ∀ u t s, I s → I (AuthStore.setAuth u t s).
Hypothesis I_logout : ∀ s, I s → I (AuthStore.logout s).
Hypothesis I_remember : ∀ e s, I s → I (AuthStore.setRememberedEmail e s).
Hypothesis I_restart : ∀ f s, I s → I (UseAuth.restart f s).

Lemma preserves_storeTokenSecurely data : preserves (UseAuth.storeTokenSecurely data).
Proof.
  unfold UseAuth.storeTokenSecurely.
  destruct (AuthTypes.sessionToken data) as [t|]; [|apply preserves_ret].
  destruct (Js.truthy _); [apply preserves_setItemAsync | apply preserves_ret].
Qed.

Lemma preserves_updateAuthStore data : preserves (UseAuth.updateAuthStore data).
Proof.
  unfold UseAuth.updateAuthStore.
  destruct (AuthTypes.user data); [|apply preserves_ret].
  apply preserves_with_auth. intros. by apply I_setAuth.
Qed.

Lemma preserves_authHandler data :
  preserves (UseAuth.storeTokenSecurely data ;;;
             UseAuth.updateAuthStore data ;;;
             UseAuth.invalidateQueries UseAuth.authKeys.session).
Proof.
  apply preserves_bind; [apply preserves_storeTokenSecurely | intros _].
  apply preserves_bind; [apply preserves_updateAuthStore | intros _].
  apply preserves_record.
Qed.

Lemma preserves_signOutHandler :
  preserves (SecureStore.deleteItemAsync "swuva-auth-token" ;;;
             UseAuth.logout ;;;
             UseAuth.removeQueries UseAuth.authKeys.all).
Proof.
  apply preserves_bind; [apply preserves_deleteItemAsync | intros _].
  apply preserves_bind; [|intros _; apply preserves_record].
  apply preserves_with_auth. intros. by apply I_logout.
Qed.

Lemma preserves_useSession ax : preserves (UseAuth.useSession ax).
Proof.
  unfold UseAuth.useSession, AuthService.getSession.
  apply preserves_bind.
  - apply preserves_try_catch; [|intros; apply preserves_ret].
    apply preserves_bind; [apply preserves_request | intros; apply preserves_ret].
  - intros data. unfold UseAuth.selectSession.
    apply preserves_bind; [|intros; apply preserves_ret].
    destruct data as [d|]; [|apply preserves_ret].
    destruct (AuthTypes.user d), (AuthTypes.session d); try apply preserves_ret.
    apply preserves_with_auth. intros. by apply I_setAuth.
Qed.

Lemma perform_preserves (a : UseAuth.Action) (w : World) :
  I (auth w) → I (auth (UseAuth.perform a w)).
Proof.
  destruct a; simpl.
  - apply preserves_mutation; [|intros d|intros; apply preserves_ret].
    + apply preserves_bind; [apply preserves_request | intros; apply preserves_ret].
    + apply preserves_bind; [apply preserves_storeTokenSecurely | intros _].
      apply preserves_record.
  - apply preserves_mutation; [|intros d; apply preserves_authHandler
                               |intros; apply preserves_ret].
    apply preserves_bind; [apply preserves_request | intros; apply preserves_ret].
  - apply preserves_mutation; [|intros d; apply preserves_authHandler
                               |intros; apply preserves_ret].
    apply preserves_bind; [apply preserves_request | intros; apply preserves_ret].
  - apply preserves_mutation; [|intros d; apply preserves_authHandler
                               |intros; apply preserves_ret].
    apply preserves_bind; [apply preserves_request | intros; apply preserves_ret].
  - apply preserves_useSession.
  - apply preserves_mutation; [|intros; apply preserves_signOutHandler
                               |intros; apply preserves_signOutHandler].
    apply preserves_bind; [apply preserves_request | intros; apply preserves_ret].
  - apply I_remember.
  - apply I_restart.
Qed.

Lemma performAll_preserves (acts : list UseAuth.Action) (w : World) :
  I (auth w) → I (auth (UseAuth.performAll acts w)).
Proof.
  revert w. induction acts as [|a acts IH]; intros w Hw; [done|].
  simpl. apply IH. by apply perform_preserves.
Qed.

End Preserves.

(** ** The secure store when its calls go through *)

Section Reliable.

Import Props.

Lemma bind_ok {A B} (c : M A) (k : A -> M B) (w w1 : World) (a : A) :
  c w = (Ok a, w1) → World.bind c k w = k a w1.
Proof. intros H. unfold World.bind. by rewrite H. Qed.

Lemma bind_throw {A B} (c : M A) (k : A -> M B) (w w1 : World) (e : Err.Thrown) :
  c w = (Throw e, w1) → World.bind c k w = (Throw e, w1).
Proof. intros H. unfold World.bind. by rewrite H. Qed.

Lemma try_catch_ok {A} (c : M A) (h : Err.Thrown -> M A) (w w1 : World) (a : A) :
  c w = (Ok a, w1) → try_catch c h w = (Ok a, w1).
Proof. intros H. unfold try_catch. by rewrite H. Qed.

Lemma try_catch_throw {A} (c : M A) (h : Err.Thrown -> M A) (w w1 : World)
    (e : Err.Thrown) :
  c w = (Throw e, w1) → try_catch c h w = h e w1.
Proof. intros H. unfold try_catch. by rewrite H. Qed.

Lemma nextFault_reliable (w : World) :
  reliable w →
  ∃ w', nextFault w = (false, w') ∧ secure w' = secure w ∧ auth w' = auth w
        ∧ calls w' = calls w ∧ reliable w'.
Proof.
  unfold reliable, nextFault. intros Hw.
  destruct (secureFaults w) as [|f fs] eqn:Hf.
  - exists w. by rewrite Hf.
  - inversion Hw as [|? ? Hhd Htl]; subst. eexists. repeat split; done.
Qed.

Lemma deleteItemAsync_reliable (key : string) (w : World) :
  reliable w →
  ∃ w', SecureStore.deleteItemAsync key w = (Ok tt, w')
        ∧ secure w' = delete key (secure w) ∧ auth w' = auth w
        ∧ calls w' = (calls w ++ [SecureDelete key])%list ∧ reliable w'.
Proof.
  intros Hw. unfold SecureStore.deleteItemAsync.
  destruct (nextFault_reliable (record (SecureDelete key) w) Hw)
    as (w1 & -> & Hs & Ha & Hc & Hr).
  eexists. split; [done|]. simpl. rewrite Hs, Ha, Hc. repeat split; done.
Qed.

Lemma setItemAsync_reliable (key value : string) (w : World) :
  reliable w →
  ∃ w', SecureStore.setItemAsync key value w = (Ok tt, w')
        ∧ secure w' = <[key := value]> (secure w) ∧ auth w' = auth w
        ∧ calls w' = (calls w ++ [SecureSet key value])%list ∧ reliable w'.
Proof.
  intros Hw. unfold SecureStore.setItemAsync.
  destruct (nextFault_reliable (record (SecureSet key value) w) Hw)
    as (w1 & -> & Hs & Ha & Hc & Hr).
  eexists. split; [done|]. simpl. rewrite Hs, Ha, Hc. repeat split; done.
Qed.

(** The rejection handler on a reliable store: the two keys go exactly when
    the status is 401, and the normalised error is thrown. *)
Lemma onRejected_reliable {D} (error : Err.AxiosError) (w : World) :
  reliable w →
  ∃ w', @Api.onRejected D error w = (Throw (Err.ThrownApi (Api.normalize error)), w')
        ∧ auth w' = auth w ∧ reliable w'
        ∧ secure w' = (if decide (Api.responseStatus error = Some 401)
                       then delete "swuva-auth" (delete "swuva-auth-token" (secure w))
                       else secure w)
        ∧ calls w' = (calls w ++
                        if decide (Api.responseStatus error = Some 401)
                        then [SecureDelete "swuva-auth-token"; SecureDelete "swuva-auth"]
                        else [])%list.
Proof.
  intros Hw. unfold Api.onRejected, World.bind, try_catch.
  case_decide as Hst.
  - destruct (deleteItemAsync_reliable "swuva-auth-token" w Hw)
      as (w1 & -> & Hs1 & Ha1 & Hc1 & Hr1).
    destruct (deleteItemAsync_reliable "swuva-auth" w1 Hr1)
      as (w2 & -> & Hs2 & Ha2 & Hc2 & Hr2).
    exists w2. unfold throw. rewrite Hs2, Hs1, Ha2, Ha1, Hc2, Hc1, <- app_assoc.
    repeat split; done.
  - exists w. unfold ret, throw. rewrite app_nil_r. repeat split; done.
Qed.

(** Whatever the secure store does, the handler rejects with the normalised
    error: a failing delete is caught and ignored. *)
Lemma onRejected_rejects {D} (error : Err.AxiosError) (w : World) :
  fst (@Api.onRejected D error w) = Throw (Err.ThrownApi (Api.normalize error)).
Proof.
  unfold Api.onRejected, World.bind, try_catch.
  case_decide; [|done].
  destruct (SecureStore.deleteItemAsync _ w) as [[[]|e] w1]; [|done].
  by destruct (SecureStore.deleteItemAsync _ w1) as [[[]|e] w2].
Qed.

Lemma onRejected_keeps_auth {D} (error : Err.AxiosError) (w : World) :
  auth (snd (@Api.onRejected D error w)) = auth w.
Proof.
  symmetry. by apply (preserves_onRejected (fun s => auth w = s)).
Qed.

End Reliable.

(** ** The API client and the auth service *)

Section ClientFacts.

Import Props.

(** The message of a normalised error is never empty, so it is truthy when
    a screen stores it as its error. *)
Lemma or_str_nonempty (s : option string) (d : string) :
  d ≠ "" → Js.or_str s d ≠ "".
Proof. intros Hd. unfold Js.or_str. destruct s; [case_decide|]; done. Qed.

Lemma normalize_message_nonempty (error : Err.AxiosError) :
  Err.message (Api.normalize error) ≠ "".
Proof. unfold Api.normalize; cbn [Err.message]. by apply or_str_nonempty. Qed.

Lemma normalize_unknown (msg : string) :
  let e := Api.normalize {| Err.response := None; Err.ax_message := msg |} in
  Err.status e = 500 ∧ Err.code e = "UNKNOWN_ERROR".
Proof. done. Qed.

(** C10, as the code has it.  When the reply carries status 401, the
    rejection handler of the shared client rejects with the normalised
    error and leaves the session store, and so its [isAuthenticated] flag,
    as it was, whatever the secure store does.  On a secure store whose
    calls go through it has deleted the keys 'swuva-auth-token' and
    'swuva-auth' (in that order, and nothing else) before it rejects.
    This holds for every request, whatever its endpoint and expected
    payload. *)
Theorem interceptor_401_deletes_token {D} (error : Err.AxiosError) (w : World) :
  Api.responseStatus error = Some 401 →
  fst (Api.request (@Api.AxRejected D error) w)
    = Throw (Err.ThrownApi (Api.normalize error))
  ∧ Err.status (Api.normalize error) = 401
  ∧ auth (snd (Api.request (@Api.AxRejected D error) w)) = auth w
  ∧ (reliable w →
     ∃ w', Api.request (@Api.AxRejected D error) w
             = (Throw (Err.ThrownApi (Api.normalize error)), w')
           ∧ secure w' !! "swuva-auth-token" = None
           ∧ secure w' !! "swuva-auth" = None
           ∧ (∀ k, k ≠ "swuva-auth-token" → k ≠ "swuva-auth" →
                   secure w' !! k = secure w !! k)
           ∧ calls w' = (calls w ++ [SecureDelete "swuva-auth-token";
                                     SecureDelete "swuva-auth"])%list).
Proof.
  intros Hst. simpl.
  split; [apply onRejected_rejects|]. split; [simpl; by rewrite Hst|].
  split; [apply onRejected_keeps_auth|].
  intros Hw.
  destruct (@onRejected_reliable D error w Hw) as (w' & Hrun & Ha & _ & Hs & Hc).
  exists w'. rewrite decide_True in Hs by done. rewrite decide_True in Hc by done.
  split; [done|].
  rewrite Hs. split; [|split; [|split]].
  - rewrite lookup_delete_ne by done. apply lookup_delete_eq.
  - apply lookup_delete_eq.
  - intros k H1 H2. by rewrite !lookup_delete_ne.
  - done.
Qed.

Lemma interceptor_401_deletes_token_witness :
  let error := Api.failingReply 401 None in
  let w := {| secure := {["swuva-auth-token" := "t0"]}; secureFaults := [];
              auth := AuthStore.setAuth
                        {| AuthStore.id := "u1"; AuthStore.email := "buyer@example.com";
                           AuthStore.name := None; AuthStore.role := AuthStore.BUYER |}
                        "t0" AuthStore.initialState;
              calls := [] |} in
  ∃ w', Api.request (@Api.AxRejected unit error) w
          = (Throw (Err.ThrownApi (Api.normalize error)), w')
        ∧ secure w' !! "swuva-auth-token" = None
        ∧ secure w' !! "swuva-auth" = None
        ∧ (∀ k, k ≠ "swuva-auth-token" → k ≠ "swuva-auth" →
                secure w' !! k = secure w !! k)
        ∧ calls w' = (calls w ++ [SecureDelete "swuva-auth-token";
                                  SecureDelete "swuva-auth"])%list.
Proof.
  intros error w.
  destruct (@interceptor_401_deletes_token unit error w) as (_ & _ & _ & Hdeleted);
    [reflexivity|].
  apply Hdeleted. constructor.
Defined.

(** C10, as stated, fails: the handler's try/catch ignores a deletion that
    the secure store rejects.  Here the reply carries status 401 and the
    first deletion rejects: the token stays under 'swuva-auth-token', the
    deletion of 'swuva-auth' is not attempted, and the handler rejects
    with the normalised error all the same. *)
Lemma interceptor_401_keeps_token_when_delete_rejects :
  let error := Api.failingReply 401 None in
  let w := {| secure := {["swuva-auth-token" := "t0"; "swuva-auth" := "a0"]};
              secureFaults := [true];
              auth := AuthStore.initialState;
              calls := [] |} in
  let w' := snd (Api.request (@Api.AxRejected unit error) w) in
  Api.responseStatus error = Some 401
  ∧ fst (Api.request (@Api.AxRejected unit error) w)
    = Throw (Err.ThrownApi (Api.normalize error))
  ∧ secure w' !! "swuva-auth-token" = Some "t0"
  ∧ secure w' !! "swuva-auth" = Some "a0"
  ∧ calls w' = [SecureDelete "swuva-auth-token"].
Proof. by vm_compute. Qed.

(** What [getSession] returns, reply by reply. *)
Lemma getSession_fulfilled st data (w : World) :
  AuthService.getSession (Api.AxFulfilled st data) w = (Ok (Some data), w).
Proof. done. Qed.

Lemma getSession_rejected (error : Err.AxiosError) (w : World) :
  fst (AuthService.getSession (Api.AxRejected error) w) = Ok None.
Proof.
  unfold AuthService.getSession, try_catch, World.bind. simpl.
  pose proof (@onRejected_rejects AuthTypes.AuthSession error w) as H.
  destruct (Api.onRejected error w) as [[d|e] w']; simpl in *; [congruence|done].
Qed.

(** C2, at the reply the claim and the code disagree on.  The backend
    answers GET /auth/get-session with status 500: the interceptor rejects
    with the normalised error of status 500, and [getSession] catches it
    and returns [null], exactly as it does for 401; for 200 it returns the
    session object. *)
Theorem getSession_500_returns_null (body : option Err.ApiErrorResponse)
    (data : AuthTypes.AuthSession) (w : World) :
  fst (Api.request (@Api.AxRejected AuthTypes.AuthSession (Api.failingReply 500 body)) w)
    = Throw (Err.ThrownApi (Api.normalize (Api.failingReply 500 body)))
  ∧ Err.status (Api.normalize (Api.failingReply 500 body)) = 500
  ∧ AuthService.getSession (Api.AxRejected (Api.failingReply 500 body)) w = (Ok None, w)
  ∧ fst (AuthService.getSession (Api.AxRejected (Api.failingReply 401 body)) w) = Ok None
  ∧ AuthService.getSession (Api.AxFulfilled 200 data) w = (Ok (Some data), w).
Proof.
  repeat split; try done. apply getSession_rejected.
Qed.

End ClientFacts.

(** ** The auth hooks *)

Section HookFacts.

Import Props.

Lemma restart_fields (f : option string) (s : AuthStore.AuthState) :
  UseAuth.restart f s
  = match f with
    | Some _ => AuthStore.setHydrated true AuthStore.initialState
    | None => AuthStore.setHydrated true s
    end.
Proof. destruct f; [done|]. by destruct s. Qed.

Lemma sessionPresent_reachable secure0 faults (acts : list UseAuth.Action) :
  sessionPresent (auth (UseAuth.performAll acts (UseAuth.firstLaunch secure0 faults))).
Proof.
  apply performAll_preserves; unfold sessionPresent; simpl; try done.
  intros f s Hs. rewrite restart_fields. by destruct f.
Qed.

Lemma hydrated_reachable secure0 faults (acts : list UseAuth.Action) :
  AuthStore.isHydrated
    (auth (UseAuth.performAll acts (UseAuth.firstLaunch secure0 faults))) = true.
Proof.
  apply (performAll_preserves (fun s => AuthStore.isHydrated s = true)); try done.
  intros f s _. rewrite restart_fields. by destruct f.
Qed.

(** The success handler shared by sign-in, OTP verification and OTP
    sign-in: it reaches [setAuth] unless the secure-store write rejects. *)
Lemma signInOnSuccess_outcome (data : AuthTypes.AuthSession) (w : World) :
  auth (snd (UseAuth.signInOnSuccess data w))
  = match fst (UseAuth.signInOnSuccess data w) with
    | Ok _ => afterSuccess data (auth w)
    | Throw _ => auth w
    end.
Proof.
  unfold UseAuth.signInOnSuccess, UseAuth.storeTokenSecurely, afterSuccess,
    UseAuth.updateAuthStore, World.bind.
  destruct (AuthTypes.sessionToken data) as [t|];
    [destruct (Js.truthy (Some t))|]; destruct (AuthTypes.user data) as [u|];
    try done.
  all: unfold SecureStore.setItemAsync.
  all: pose proof (nextFault_auth (record (SecureSet "swuva-auth-token" t) w)) as Ha.
  all: destruct (nextFault _) as [[] w1]; simpl in *; by rewrite ?Ha.
Qed.

Lemma useSignIn_fulfilled st (data : AuthTypes.AuthSession) (w : World) :
  auth (snd (UseAuth.useSignIn (Api.AxFulfilled st data) w))
  = match fst (UseAuth.useSignIn (Api.AxFulfilled st data) w) with
    | Ok _ => afterSuccess data (auth w)
    | Throw _ => auth w
    end.
Proof.
  pose proof (signInOnSuccess_outcome data w) as H.
  unfold UseAuth.useSignIn, UseAuth.mutation, AuthService.signIn, try_catch.
  cbn [Api.request]. unfold World.bind, ret, UseAuth.noHandler, throw.
  destruct (UseAuth.signInOnSuccess data w) as [[[]|e] w']; simpl in *; done.
Qed.

(** C1, as the code has it.  From first launch on, through any sequence of
    sign-ups, sign-ins, OTP verifications, OTP sign-ins, session fetches,
    sign-outs, remember-me writes and restarts, and whatever the secure
    store does, a store that reports [isAuthenticated = true] holds a
    non-null user and a non-null token string.  On each of the three success
    paths the handler either stops at a rejected secure-store write, leaving
    the store as it was, or ends with the store authenticated for the
    response's user (when it has one) with the token [data.session?.token
    || '']: the response's token, or the empty string when the token is
    missing or empty. *)
Theorem authenticated_store_has_user_and_token_string :
  (∀ secure0 faults acts,
     sessionPresent (auth (UseAuth.performAll acts (UseAuth.firstLaunch secure0 faults))))
  ∧ Forall
      (fun hook : Api.AxiosOutcome AuthTypes.AuthSession -> M AuthTypes.AuthSession =>
         ∀ st data w,
           auth (snd (hook (Api.AxFulfilled st data) w))
           = match fst (hook (Api.AxFulfilled st data) w) with
             | Ok _ => afterSuccess data (auth w)
             | Throw _ => auth w
             end)
      [UseAuth.useSignIn; UseAuth.useVerifyEmailOTP; UseAuth.useSignInWithOTP]
  ∧ (∀ u sess s,
       let s' := afterSuccess {| AuthTypes.user := Some u; AuthTypes.session := sess |} s in
       AuthStore.isAuthenticated s' = true
       ∧ AuthStore.user s' = Some (UseAuth.storeUser u)
       ∧ AuthStore.token s'
         = Some match sess with Some x => AuthTypes.token x | None => "" end).
Proof.
  split; [apply sessionPresent_reachable|]. split.
  - repeat constructor; intros st data w; apply (useSignIn_fulfilled st data w).
  - intros u [x|] s; simpl; [|done]. repeat split.
    unfold Js.or_str. unfold AuthTypes.sessionToken. simpl.
    case_decide as H; [by rewrite H|done].
Qed.

(** C1, as stated, fails: a sign-in that succeeds with a user and an empty
    session token leaves the store authenticated with the token ''. *)
Lemma signIn_with_empty_token_is_authenticated :
  let data :=
    {| AuthTypes.user :=
         Some {| AuthTypes.id := "user-1"; AuthTypes.email := "buyer@example.com";
                 AuthTypes.name := Some "Test Buyer"; AuthTypes.role := AuthStore.BUYER;
                 AuthTypes.emailVerified := true; AuthTypes.image := None;
                 AuthTypes.createdAt := "2026-01-01"; AuthTypes.updatedAt := "2026-01-01" |};
       AuthTypes.session :=
         Some {| AuthTypes.session_id := "s1"; AuthTypes.userId := "user-1";
                 AuthTypes.expiresAt := "2026-02-01"; AuthTypes.token := "" |} |} in
  let w := UseAuth.perform (UseAuth.DoSignIn (Api.AxFulfilled 200 data))
             (UseAuth.firstLaunch ∅ []) in
  AuthStore.isAuthenticated (auth w) = true
  ∧ AuthStore.token (auth w) = Some ""
  ∧ ¬ sessionInvariant (auth w).
Proof.
  simpl. repeat split; try done.
  intros H. destruct (H eq_refl) as [(t & Ht & Hne) _].
  vm_compute in Ht. congruence.
Qed.

Lemma signOutHandler_reliable (w : World) :
  reliable w →
  ∃ w', (SecureStore.deleteItemAsync "swuva-auth-token" ;;;
         UseAuth.logout ;;;
         UseAuth.removeQueries UseAuth.authKeys.all) w = (Ok tt, w')
        ∧ secure w' = delete "swuva-auth-token" (secure w)
        ∧ auth w' = AuthStore.logout (auth w)
        ∧ calls w' = (calls w ++ [SecureDelete "swuva-auth-token";
                                  RemoveQueries ["auth"]])%list.
Proof.
  intros Hw. unfold World.bind.
  destruct (deleteItemAsync_reliable "swuva-auth-token" w Hw)
    as (w1 & -> & Hs & Ha & Hc & _).
  eexists. split; [done|]. simpl. rewrite Hs, Ha, Hc, <- app_assoc. done.
Qed.




(** Scenario A of the specification: the mock backend's answer to a sign-in
    puts its token in the secure store and authenticates the session store. *)
Example signIn_mock_session :
  let data :=
    {| AuthTypes.user :=
         Some {| AuthTypes.id := "user-1"; AuthTypes.email := "buyer@example.com";
                 AuthTypes.name := Some "Test Buyer"; AuthTypes.role := AuthStore.BUYER;
                 AuthTypes.emailVerified := true; AuthTypes.image := None;
                 AuthTypes.createdAt := "2026-01-01"; AuthTypes.updatedAt := "2026-01-01" |};
       AuthTypes.session :=
         Some {| AuthTypes.session_id := "s1"; AuthTypes.userId := "user-1";
                 AuthTypes.expiresAt := "2026-02-01";
                 AuthTypes.token := "mock-session-token" |} |} in
  let w := UseAuth.perform (UseAuth.DoSignIn (Api.AxFulfilled 200 data))
             (UseAuth.firstLaunch ∅ []) in
  AuthStore.isAuthenticated (auth w) = true
  ∧ AuthStore.token (auth w) = Some "mock-session-token"
  ∧ secure w !! "swuva-auth-token" = Some "mock-session-token"
  ∧ calls w = [SecureSet "swuva-auth-token" "mock-session-token";
               InvalidateQueries ["auth"; "session"]].
Proof. by vm_compute. Qed.

(** C6.  The hydration callback sets [isHydrated] to true in every outcome
    of the load from durable storage: nothing stored, a stored
    snapshot, or a failure.  After a failed load at start-up the store has
    its default logged-out values with [isHydrated = true]; and from first
    launch on, across every action and restart (also one whose load
    fails), the store is hydrated. *)
Theorem hydration_completes_in_every_outcome :
  (∀ r s, AuthStore.isHydrated (AuthStore.rehydrate r s) = true)
  ∧ (∀ state error s,
       AuthStore.isHydrated (AuthStore.onRehydrateStorage state error s) = true)
  ∧ (∀ reason,
       let s := AuthStore.rehydrate (AuthStore.LoadFailed reason) AuthStore.initialState in
       AuthStore.isHydrated s = true ∧ loggedOut s
       ∧ AuthStore.rememberedEmail s = None)
  ∧ (∀ secure0 faults acts,
       AuthStore.isHydrated
         (auth (UseAuth.performAll acts (UseAuth.firstLaunch secure0 faults))) = true).
Proof.
  split; [apply rehydrate_hydrated|]. split; [done|]. split; [done|].
  apply hydrated_reachable.
Qed.

End HookFacts.

(** ** The splash navigation effect *)

Section SplashFacts.

Import Splash.

Variable flag : GetItem.

(** While the store is not hydrated after an event, the event's render
    makes no [router.replace] call. *)
Lemma step_unhydrated (s : State) (e : Event) :
  isHydrated (step flag s e) = false → replaced (step flag s e) = replaced s.
Proof.
  unfold step, effect. case_decide as Hd.
  - intros _. by destruct e.
  - destruct (isAnimationComplete (update e s)) eqn:Ha,
             (isHydrated (update e s)) eqn:Hh,
             (hasNavigatedRef (update e s)) eqn:Hn; simpl;
      try (intros _; by destruct e); congruence.
Qed.

(** Once the ref is set, nothing changes the list of decisions. *)
Lemma step_after_navigation (s : State) (e : Event) :
  hasNavigatedRef s = true →
  replaced (step flag s e) = replaced s ∧ hasNavigatedRef (step flag s e) = true.
Proof.
  intros Hn. unfold step, effect. case_decide as Hd.
  - by destruct e.
  - replace (hasNavigatedRef (update e s)) with true by (by destruct e).
    rewrite !orb_true_r. by destruct e.
Qed.

Local Abbreviation once := Props.decidedOnce.

Lemma once_mount hydrated authenticated group :
  once (mount flag hydrated authenticated group).
Proof. by destruct hydrated. Qed.

Lemma once_step (s : State) (e : Event) : once s → once (step flag s e).
Proof.
  intros [Hlen Himp]. destruct (hasNavigatedRef s) eqn:Hn.
  - destruct (step_after_navigation s e Hn) as [Hr Hn'].
    split; [by rewrite Hr, Hn'|done].
  - destruct s as [a h au g n r]. simpl in *. subst n.
    destruct r; [|done]. clear Hlen.
    destruct a, h; try (by specialize (Himp eq_refl));
      destruct e as [|[]|[]|g']; destruct au; by vm_compute.
Qed.

Lemma once_run (es : list Event) (s : State) : once s → once (run flag es s).
Proof.
  revert s. induction es as [|e es IH]; intros s Hs; [done|].
  simpl. apply IH. by apply once_step.
Qed.

(** A change of route group is not a dependency of the effect. *)
Lemma step_route_group (s : State) (g : string) :
  replaced (step flag s (RouteGroup g)) = replaced s.
Proof. unfold step. by rewrite decide_True. Qed.

(** C3, as the code has it.  The splash effect makes no redirect decision
    in a render where the store is not hydrated; over any interleaving of
    animation completion and changes of [isHydrated], [isAuthenticated] and
    route group it makes at most one decision in total, made as soon as the
    animation has completed on a hydrated store; after that decision, and
    on any change of route group, no event makes it decide again: the
    effect is one-shot, guarded by [hasNavigatedRef]. *)
Theorem splash_guard_decides_once hydrated authenticated group (es : list Event) :
  let s := run flag es (mount flag hydrated authenticated group) in
  (∀ e, isHydrated (step flag s e) = false → replaced (step flag s e) = replaced s)
  ∧ (List.length (replaced s) ≤ 1)%nat
  ∧ (isAnimationComplete s = true → isHydrated s = true →
     List.length (replaced s) = 1)
  ∧ (∀ e, List.length (replaced s) = 1 → replaced (step flag s e) = replaced s)
  ∧ (∀ g, replaced (step flag s (RouteGroup g)) = replaced s).
Proof.
  intros s.
  destruct (once_run es _ (once_mount hydrated authenticated group)) as [Hlen Himp].
  fold s in Hlen, Himp.
  split; [intros e; apply step_unhydrated|].
  split; [rewrite Hlen; destruct (hasNavigatedRef s); lia|].
  split; [|split].
  - intros Ha Hh. rewrite Hlen, Himp; [done|]. by rewrite Ha, Hh.
  - intros e H1. apply step_after_navigation.
    destruct (hasNavigatedRef s); [done|]. rewrite Hlen in H1. discriminate.
  - apply step_route_group.
Qed.

End SplashFacts.

(** C3, as stated, fails: once the splash has navigated (animation done,
    store hydrated), a change of [isAuthenticated] is followed by no
    further redirect decision. *)
Lemma guard_does_not_rerun_after_first_decision :
  let s := Splash.run (Splash.GetResolves None)
             [Splash.AnimationComplete; Splash.StoreHydrated true]
             (Splash.mount (Splash.GetResolves None) false false "splash") in
  Splash.isHydrated s = true
  ∧ Splash.changesGuardInput s (Splash.StoreAuthenticated true) = true
  ∧ Splash.replaced (Splash.step (Splash.GetResolves None) s (Splash.StoreAuthenticated true))
    = Splash.replaced s
  ∧ ¬ Props.guardRerunsOnEveryChange (Splash.GetResolves None).
Proof.
  simpl. repeat split; try done.
  intros H.
  destruct (H false false "splash"
              [Splash.AnimationComplete; Splash.StoreHydrated true]
              (Splash.StoreAuthenticated true)) as [_ Hre].
  specialize (Hre eq_refl eq_refl). vm_compute in Hre. discriminate.
Qed.

(** ** The OTP verification screen: the resend countdown *)

Section CountdownFacts.

Import VerifyOTP.

(** One tick of a running countdown with more than one second left. *)
Lemma tick_counting (s : Screen) :
  mounted s = true → timerRef s = true → canResend s = false →
  (2 ≤ countdown s)%nat →
  countdown (step s Tick) = countdown s - 1 ∧ canResend (step s Tick) = false
  ∧ timerRef (step s Tick) = true ∧ mounted (step s Tick) = true.
Proof.
  intros Hm Ht Hr Hc. unfold step, tick. rewrite Hm, Ht. simpl.
  destruct (Nat.leb_spec (countdown s) 1); [lia|]. simpl. by rewrite Hr, Hm.
Qed.

(** A running countdown with [c] seconds left: what [n < c] ticks do. *)
Lemma ticks_counting (n c : nat) (s : Screen) :
  mounted s = true → timerRef s = true → canResend s = false →
  countdown s = c → n < c →
  let s' := run (repeat Tick n) s in
  phase s' = COUNTING (c - n) ∧ mounted s' = true ∧ timerRef s' = true.
Proof.
  revert c s. induction n as [|n IH]; intros c s Hm Ht Hr Hc Hn; simpl.
  - unfold phase. rewrite Hr, Hc, Nat.sub_0_r. done.
  - destruct (tick_counting s Hm Ht Hr) as (Hc' & Hr' & Ht' & Hm'); [lia|].
    destruct (IH (c - 1) (step s Tick)) as (Hp & ? & ?); try done; [lia..|].
    rewrite Hp. repeat split; try done. f_equal. lia.
Qed.

Lemma ticks_stopped (k : nat) (s : Screen) :
  timerRef s = false → run (repeat Tick k) s = s.
Proof.
  intros Ht. induction k as [|k IH]; [done|]. simpl.
  replace (step s Tick) with s; [done|].
  unfold step. rewrite Ht. by destruct (mounted s).
Qed.

Lemma run_app (es1 es2 : list Event) (s : Screen) :
  run (es1 ++ es2) s = run es2 (run es1 s).
Proof. apply fold_left_app. Qed.

Lemma run_cons (e : Event) (es : list Event) (s : Screen) :
  run (e :: es) s = run es (step s e).
Proof. done. Qed.

(** The screen that sixty ticks and more leave behind the mount. *)
Lemma ticks_to_ready (k : nat) (emailParam : string) :
  run (repeat Tick (RESEND_COOLDOWN + k)) (mount emailParam)
  = set_timer 0 true false (mount emailParam).
Proof.
  unfold RESEND_COOLDOWN at 1. rewrite repeat_app, run_app.
  replace (run (repeat Tick 60) (mount emailParam))
    with (set_timer 0 true false (mount emailParam)) by (by vm_compute).
  by apply ticks_stopped.
Qed.

(** C8.  The countdown starts in COUNTING(60); after [n < 60] one-second
    ticks it is COUNTING(60 - n), one less per tick; after 60 ticks it is
    READY, with the interval stopped, and stays READY however many more
    seconds pass; pressing resend while READY starts exactly one resend
    request, and when that request succeeds the countdown is COUNTING(60)
    again with the interval running, and counts down as before. *)
Theorem otp_countdown_reaches_ready_and_restarts (emailParam : string) :
  let s0 := mount emailParam in
  phase s0 = COUNTING 60
  ∧ (∀ n, n < 60 → phase (run (repeat Tick n) s0) = COUNTING (60 - n))
  ∧ phase (run (repeat Tick 60) s0) = READY
  ∧ (∀ k, let s := run (repeat Tick (60 + k)) s0 in
          phase s = READY ∧ timerRef s = false
          ∧ let s' := run [PressResend; ResendSettled Succeeded] s in
            resendCalls (step s PressResend) = [emailParam]
            ∧ phase s' = COUNTING 60 ∧ timerRef s' = true
            ∧ ∀ n, n < 60 → phase (run (repeat Tick n) s') = COUNTING (60 - n)).
Proof.
  intros s0.
  split; [done|]. split.
  { intros n Hn. by apply (ticks_counting n 60 s0). }
  split.
  { change 60 with (RESEND_COOLDOWN + 0). unfold s0. by rewrite ticks_to_ready. }
  intros k s. subst s. change (60 + k) with (RESEND_COOLDOWN + k).
  unfold s0. rewrite ticks_to_ready.
  split; [done|]. split; [done|].
  split; [done|]. split; [done|]. split; [done|].
  intros n Hn. by apply ticks_counting.
Qed.

End CountdownFacts.

(** ** The OTP verification screen: auto-verify *)

Section AutoVerifyFacts.

Import VerifyOTP.

(** With a complete code [handleVerify] calls [verifyOTP.mutate], whatever
    the observer's state. *)
Lemma handleVerify_complete (s : Screen) :
  String.length (otp s) = OTP_LENGTH →
  handleVerify s = set_verify true (verifyCalls s ++ [(email s, otp s)]) s.
Proof. intros Hlen. unfold handleVerify. by rewrite decide_False by (by intros []). Qed.

(** The timeout of the auto-verify effect, when it fires on a complete
    code, starts the verification of that code; the timeout is spent and
    nothing is rendered. *)
Lemma autoVerify_fires (s : Screen) :
  mounted s = true → autoVerifyArmed s = true →
  String.length (otp s) = OTP_LENGTH →
  step s AutoVerifyTimeout
  = set_verify true (verifyCalls s ++ [(email s, otp s)]) (set_armed false s).
Proof.
  intros Hm Harm Hlen. unfold step. rewrite Hm, Harm. simpl.
  by rewrite handleVerify_complete.
Qed.

(** The Continue button, enabled in the last render, does the same. *)
Lemma continue_fires (s : Screen) :
  mounted s = true → verifyPending s = false →
  String.length (otp s) = OTP_LENGTH →
  step s PressContinue = set_verify true (verifyCalls s ++ [(email s, otp s)]) s.
Proof.
  intros Hm Hp Hlen. unfold step. rewrite Hm, Hp. simpl.
  rewrite bool_decide_eq_true_2 by done. simpl.
  by rewrite handleVerify_complete.
Qed.

(** Once a render has shown the verification pending, the Continue button
    is disabled and no auto-verify timeout is set: neither starts
    anything. *)
Lemma rendered_pending_blocks (s : Screen) (e : Event) :
  verifyPending s = true → autoVerifyArmed s = false →
  e = PressContinue ∨ e = AutoVerifyTimeout → step s e = s.
Proof.
  intros Hp Harm [-> | ->]; unfold step; rewrite ?Hp, ?Harm; by destruct (mounted s).
Qed.

(** C7, at the input the claim and the code disagree on.  Six digits are
    entered, the render shows no verification pending and the auto-verify
    timeout is set.  When the timeout fires, one verification starts.  If
    the Continue button is pressed before the render that shows it
    pending, or the button is pressed first and the timeout fires before
    that render, [handleVerify] runs a second time and, having no test of
    [isPending] of its own, starts a second verification of the same code
    while the first is in flight.  Once that render has taken place the
    button is disabled and no timeout is set: a press and a timeout then
    start nothing. *)
Theorem continue_press_and_timeout_verify_twice (s : Screen) :
  mounted s = true → String.length (otp s) = OTP_LENGTH →
  verifyPending s = false → autoVerifyArmed s = true →
  let once := (verifyCalls s ++ [(email s, otp s)])%list in
  let twice := (verifyCalls s ++ [(email s, otp s); (email s, otp s)])%list in
  verifyCalls (step s AutoVerifyTimeout) = once
  ∧ verifyMutating (step s AutoVerifyTimeout) = true
  ∧ verifyCalls (run [AutoVerifyTimeout; PressContinue] s) = twice
  ∧ verifyCalls (run [PressContinue; AutoVerifyTimeout] s) = twice
  ∧ verifyCalls (run [AutoVerifyTimeout; Rerender; PressContinue; AutoVerifyTimeout] s)
    = once.
Proof.
  intros Hm Hlen Hp Harm once twice. subst once twice.
  rewrite !run_cons. unfold run, fold_left.
  rewrite (autoVerify_fires s Hm Harm Hlen).
  split; [done|]. split; [done|]. split.
  { rewrite continue_fires by done. simpl. by rewrite <- app_assoc. }
  split.
  { rewrite (continue_fires s Hm Hp Hlen), autoVerify_fires by done.
    simpl. by rewrite <- app_assoc. }
  set (s1 := set_verify true (verifyCalls s ++ [(email s, otp s)])%list
               (set_armed false s)).
  assert (Hrender : step s1 Rerender = render s1).
  { unfold step. simpl. by rewrite Hm. }
  rewrite Hrender.
  assert (Harm1 : autoVerifyArmed (render s1) = false).
  { unfold render, autoVerifyCondition. simpl. by rewrite andb_false_r. }
  rewrite (rendered_pending_blocks (render s1) PressContinue),
    (rendered_pending_blocks (render s1) AutoVerifyTimeout); auto.
Qed.

Lemma continue_press_and_timeout_verify_twice_witness :
  let s := run [DigitChange "1" 0; DigitChange "2" 1; DigitChange "3" 2;
                DigitChange "4" 3; DigitChange "5" 4; DigitChange "6" 5]
             (mount "buyer@example.com") in
  otp s = "123456"
  ∧ verifyCalls (run [AutoVerifyTimeout; PressContinue] s)
    = [("buyer@example.com", "123456"); ("buyer@example.com", "123456")]
  ∧ verifyCalls (run [PressContinue; AutoVerifyTimeout] s)
    = [("buyer@example.com", "123456"); ("buyer@example.com", "123456")].
Proof.
  intros s.
  destruct (continue_press_and_timeout_verify_twice s)
    as (_ & _ & Htimeout_first & Hpress_first & _); try reflexivity.
  split; [reflexivity|]. split; [exact Htimeout_first | exact Hpress_first].
Defined.

End AutoVerifyFacts.

(** ** The forgot-password screen *)

Section ForgotPasswordFacts.

Import ForgotPassword.

Variable EMAIL_REGEX_test : string -> bool.

Lemma onError_unclassified (sanitizedEmail : string) (err : Err.Thrown) (s : Screen) :
  isRateLimited (Api.getErrorMessage err) = false →
  isConnectionProblem (Api.getErrorMessage err) = false →
  onError sanitizedEmail err s = onSuccess sanitizedEmail s.
Proof. intros Hr Hc. unfold onError, onSuccess. by rewrite Hr, Hc. Qed.

Lemma navigations_app (fx1 fx2 : list Ui.Effect) :
  navigations (fx1 ++ fx2) = (navigations fx1 ++ navigations fx2)%list.
Proof. apply omap_app. Qed.

(** C9.  Let the backend answer the reset request with an error that the
    screen classifies neither as rate limiting nor as a connection problem,
    as an "email not found" answer is.  Then [handleSubmit] leaves the
    screen exactly as it does when the backend answers with success: same
    state, same haptic feedback, same navigation.  On a mounted screen with
    a valid email that navigation is one push of the reset-password screen
    with the sanitised submitted email. *)
Theorem forgot_password_not_found_same_as_found
    (err : Err.Thrown) (resp : ForgotPasswordResponse) (s : Screen) :
  isRateLimited (Api.getErrorMessage err) = false →
  isConnectionProblem (Api.getErrorMessage err) = false →
  handleSubmit EMAIL_REGEX_test (Throw err) s = handleSubmit EMAIL_REGEX_test (Ok resp) s
  ∧ navigations (effects (handleSubmit EMAIL_REGEX_test (Throw err) s))
    = navigations (effects (handleSubmit EMAIL_REGEX_test (Ok resp) s))
  ∧ (isMountedRef s = true →
     fst (validateForm EMAIL_REGEX_test (email s) s) = true →
     navigations (effects (handleSubmit EMAIL_REGEX_test (Throw err) s))
     = (navigations (effects s)
          ++ [("/(auth)/reset-password", sanitizeEmail (email s))])%list).
Proof.
  intros Hr Hc.
  assert (Heq : handleSubmit EMAIL_REGEX_test (Throw err) s
                = handleSubmit EMAIL_REGEX_test (Ok resp) s).
  { unfold handleSubmit.
    destruct (validateForm _ _ _) as [[] s1]; simpl; [|done].
    by apply onError_unclassified. }
  split; [done|]. split; [by rewrite Heq|].
  intros Hm Hvalid. rewrite Heq. unfold handleSubmit.
  unfold validateForm in *. simpl in *.
  case_decide; [done|]. destruct (negb _); [done|]. simpl.
  unfold onSuccess. simpl. rewrite Hm. simpl.
  rewrite !navigations_app. simpl. by rewrite !app_nil_r.
Qed.

End ForgotPasswordFacts.

Lemma forgot_password_not_found_same_as_found_witness :
  let notFound :=
    Err.ThrownApi
      (Api.normalize
         (Api.failingReply 404
            (Some {| Err.body_message := Some "User not found";
                     Err.body_code := Some "USER_NOT_FOUND";
                     Err.body_errors := None |}))) in
  let found := {| ForgotPassword.success := true; ForgotPassword.message := "OTP sent" |} in
  let s := {| ForgotPassword.email := " Buyer@Example.com ";
              ForgotPassword.error := None; ForgotPassword.touched := true;
              ForgotPassword.isMountedRef := true; ForgotPassword.effects := [] |} in
  ForgotPassword.navigations
    (ForgotPassword.effects (ForgotPassword.handleSubmit (fun _ => true) (Throw notFound) s))
  = [("/(auth)/reset-password", "buyer@example.com")]
  ∧ ForgotPassword.handleSubmit (fun _ => true) (Throw notFound) s
    = ForgotPassword.handleSubmit (fun _ => true) (Ok found) s.
Proof.
  intros notFound found s.
  destruct (forgot_password_not_found_same_as_found (fun _ => true) notFound found s)
    as (Heq & _ & Hnav); [reflexivity | reflexivity |].
  split; [exact (Hnav eq_refl eq_refl) | exact Heq].
Defined.

(** * Further properties *)

(** ** The session store: persistence and composition *)

Section StoreLaws.

Import AuthStore.

(** X1.  What is persisted survives a restart: after a restart whose load
    succeeds the store holds the same user, token, authentication flag and
    remembered email, and is hydrated; the snapshot written to durable
    storage is the same as before, and never depends on the hydration
    flag. *)
Theorem restart_restores_persisted_session (s : AuthState) (b : bool) :
  partialize (UseAuth.restart None s) = partialize s
  ∧ user (UseAuth.restart None s) = user s
  ∧ token (UseAuth.restart None s) = token s
  ∧ isAuthenticated (UseAuth.restart None s) = isAuthenticated s
  ∧ rememberedEmail (UseAuth.restart None s) = rememberedEmail s
  ∧ isHydrated (UseAuth.restart None s) = true
  ∧ partialize (setHydrated b s) = partialize s
  ∧ merge (partialize s) (setHydrated b initialState) = setHydrated b s.
Proof. destruct s. repeat split. Qed.

(** How the store's writes compose: a later [setAuth] replaces the
    session wholesale; [logout] undoes any [setAuth] and is idempotent;
    [setRememberedEmail] commutes with both, so the remembered email is
    independent of the session. *)
Theorem store_writes_compose (u1 u2 : User) (t1 t2 : string) (e : option string)
    (s : AuthState) :
  setAuth u2 t2 (setAuth u1 t1 s) = setAuth u2 t2 s
  ∧ logout (setAuth u1 t1 s) = logout s
  ∧ logout (logout s) = logout s
  ∧ setAuth u1 t1 (logout s) = setAuth u1 t1 s
  ∧ setRememberedEmail e (setAuth u1 t1 s) = setAuth u1 t1 (setRememberedEmail e s)
  ∧ setRememberedEmail e (logout s) = logout (setRememberedEmail e s)
  ∧ rememberedEmail (logout (setAuth u1 t1 (setRememberedEmail e s))) = e.
Proof. repeat split. Qed.

End StoreLaws.

(** ** The API client: normalisation and the rejection handler *)

Section ClientLaws.

Import Props MoreProps.

(** X2.  Every normalised error is well formed: its message and code are
    non-empty and its status is not 0, so [getErrorMessage] of it is
    non-empty.  With no reply the status is 500 and the code UNKNOWN_ERROR;
    with a reply the status is the reply's (500 for a status 0) and a
    non-empty message in the body is used as it is. *)
Theorem normalize_well_formed (error : Err.AxiosError) :
  Err.message (Api.normalize error) ≠ ""
  ∧ Err.code (Api.normalize error) ≠ ""
  ∧ Err.status (Api.normalize error) ≠ 0
  ∧ Api.getErrorMessage (Err.ThrownApi (Api.normalize error)) ≠ ""
  ∧ Api.isApiError (Err.ThrownApi (Api.normalize error)) = true
  ∧ (∀ msg, let e := Api.normalize {| Err.response := None; Err.ax_message := msg |} in
            Err.status e = 500 ∧ Err.code e = "UNKNOWN_ERROR" ∧ Err.errors e = None)
  ∧ (∀ st body msg,
       Err.status (Api.normalize
                     {| Err.response := Some {| Err.resp_status := st;
                                                Err.resp_data := body |};
                        Err.ax_message := msg |})
       = match st with 0 => 500 | _ => st end)
  ∧ (∀ st m c es msg,
       Err.message (Api.normalize
                      {| Err.response :=
                           Some {| Err.resp_status := st;
                                   Err.resp_data :=
                                     Some {| Err.body_message := Some m;
                                             Err.body_code := c;
                                             Err.body_errors := es |} |};
                         Err.ax_message := msg |})
       = if decide (m = "") then Js.or_str (Some msg) "An unexpected error occurred"
         else m).
Proof.
  split; [apply normalize_message_nonempty|].
  split; [unfold Api.normalize; cbn [Err.code]; by apply or_str_nonempty|].
  split.
  { unfold Api.normalize; cbn [Err.status]. unfold Js.or_nat.
    destruct (Api.responseStatus error) as [[|n]|]; done. }
  split; [apply normalize_message_nonempty|]. split; [done|].
  split; [done|]. split; [by intros [|st] body msg|].
  intros st m c es msg. unfold Api.normalize, Api.responseData. cbn.
  unfold Js.or_str. repeat case_decide; congruence.
Qed.

(** A rejection whose status is not 401 (or that carries no reply)
    touches nothing: no secure-store call is made, the world is exactly as
    it was, and the normalised error is thrown. *)
Theorem rejection_other_than_401_touches_nothing {D} (error : Err.AxiosError)
    (w : World) :
  Api.responseStatus error ≠ Some 401 →
  Api.request (@Api.AxRejected D error) w
  = (Throw (Err.ThrownApi (Api.normalize error)), w).
Proof.
  intros Hst. simpl. unfold Api.onRejected, World.bind.
  by rewrite decide_False.
Qed.

Lemma rejection_other_than_401_touches_nothing_witness :
  let w := {| secure := {["swuva-auth-token" := "t0"]}; secureFaults := [true];
              auth := AuthStore.initialState; calls := [] |} in
  let error := Api.failingReply 500 None in
  Api.request (@Api.AxRejected unit error) w
  = (Throw (Err.ThrownApi (Api.normalize error)), w).
Proof.
  intros w error.
  apply (rejection_other_than_401_touches_nothing error w). discriminate.
Defined.

Lemma deleteItemAsync_cases (key : string) (w : World) :
  (∃ w', SecureStore.deleteItemAsync key w = (Ok tt, w')
         ∧ secure w' = delete key (secure w) ∧ auth w' = auth w)
  ∨ (∃ w', SecureStore.deleteItemAsync key w = (Throw SecureStore.failure, w')
           ∧ secure w' = secure w ∧ auth w' = auth w).
Proof.
  unfold SecureStore.deleteItemAsync, nextFault. simpl.
  destruct (secureFaults w) as [|[] fs]; [left|right|left]; eexists; done.
Qed.

(** X3.  Whatever the secure store does, the rejection handler rejects
    with the normalised error and leaves the session store as it was; in
    the secure store it can only remove 'swuva-auth-token' and
    'swuva-auth', and only on a 401: every other key keeps its value. *)
Theorem rejection_handler_is_contained {D} (error : Err.AxiosError) (w : World) :
  let w' := snd (Api.request (@Api.AxRejected D error) w) in
  fst (Api.request (@Api.AxRejected D error) w)
    = Throw (Err.ThrownApi (Api.normalize error))
  ∧ auth w' = auth w
  ∧ ∀ k, secure w' !! k = secure w !! k
         ∨ (Api.responseStatus error = Some 401
            ∧ (k = "swuva-auth-token" ∨ k = "swuva-auth")
            ∧ secure w' !! k = None).
Proof.
  intros w'. split; [apply onRejected_rejects|].
  split; [apply onRejected_keeps_auth|].
  subst w'. simpl. unfold Api.onRejected, World.bind, try_catch.
  case_decide as Hst; [|by left].
  destruct (deleteItemAsync_cases "swuva-auth-token" w)
    as [(w1 & -> & Hs1 & _)|(w1 & -> & Hs1 & _)]; simpl.
  - destruct (deleteItemAsync_cases "swuva-auth" w1)
      as [(w2 & -> & Hs2 & _)|(w2 & -> & Hs2 & _)]; simpl; rewrite Hs2, Hs1; intros k.
    + destruct (decide (k = "swuva-auth")) as [->|Hk2].
      { right. split; [done|]. split; [by right|]. apply lookup_delete_eq. }
      rewrite lookup_delete_ne by done.
      destruct (decide (k = "swuva-auth-token")) as [->|Hk1].
      { right. split; [done|]. split; [by left|]. apply lookup_delete_eq. }
      left. by rewrite lookup_delete_ne.
    + destruct (decide (k = "swuva-auth-token")) as [->|Hk1].
      { right. split; [done|]. split; [by left|]. apply lookup_delete_eq. }
      left. by rewrite lookup_delete_ne.
  - intros k. left. by rewrite Hs1.
Qed.

End ClientLaws.

(** ** Computations that keep a reliable secure store reliable *)

Section Settles.

Import Props MoreProps.

Lemma nextFault_settles (w : World) : reliable w → reliable (snd (nextFault w)).
Proof. intros Hw. by destruct (nextFault_reliable w Hw) as (w' & -> & _ & _ & _ & ?). Qed.

Lemma settles_ret {A} (a : A) : settles (ret a).
Proof. by intros w. Qed.

Lemma settles_throw {A} (e : Err.Thrown) : settles (@throw A e).
Proof. by intros w. Qed.

Lemma settles_bind {A B} (c : M A) (k : A -> M B) :
  settles c → (∀ a, settles (k a)) → settles (World.bind c k).
Proof.
  intros Hc Hk w Hw. unfold World.bind.
  specialize (Hc w Hw). destruct (c w) as [[a|e] w']; simpl in *; [by apply Hk|done].
Qed.

Lemma settles_try_catch {A} (c : M A) (h : Err.Thrown -> M A) :
  settles c → (∀ e, settles (h e)) → settles (try_catch c h).
Proof.
  intros Hc Hh w Hw. unfold try_catch.
  specialize (Hc w Hw). destruct (c w) as [[a|e] w']; simpl in *; [done|by apply Hh].
Qed.

Lemma settles_modify (f : World -> World) :
  (∀ w, secureFaults (f w) = secureFaults w) → settles (modify f).
Proof. intros Hf w Hw. unfold reliable. simpl. by rewrite Hf. Qed.

Lemma settles_setItemAsync (key value : string) :
  settles (SecureStore.setItemAsync key value).
Proof.
  intros w Hw. by destruct (setItemAsync_reliable key value w Hw) as (w' & -> & _ & _ & _ & ?).
Qed.

Lemma settles_deleteItemAsync (key : string) : settles (SecureStore.deleteItemAsync key).
Proof.
  intros w Hw. by destruct (deleteItemAsync_reliable key w Hw) as (w' & -> & _ & _ & _ & ?).
Qed.

Lemma settles_request {D} (ax : Api.AxiosOutcome D) : settles (Api.request ax).
Proof.
  destruct ax as [st data|error]; [apply settles_ret|].
  intros w Hw. simpl.
  by destruct (@onRejected_reliable D error w Hw) as (w' & -> & _ & ? & _).
Qed.

Lemma settles_mutation {D} (fn : M D) (onSuccess : D -> M unit)
    (onError : Err.Thrown -> M unit) :
  settles fn → (∀ d, settles (onSuccess d)) → (∀ e, settles (onError e)) →
  settles (UseAuth.mutation fn onSuccess onError).
Proof.
  intros Hfn Hs He. unfold UseAuth.mutation. apply settles_try_catch.
  - apply settles_bind; [done|]. intros d.
    apply settles_bind; [apply Hs|]. intros. apply settles_ret.
  - intros e. apply settles_bind; [apply He|]. intros. apply settles_throw.
Qed.

Lemma settles_storeTokenSecurely data : settles (UseAuth.storeTokenSecurely data).
Proof.
  unfold UseAuth.storeTokenSecurely.
  destruct (AuthTypes.sessionToken data) as [t|]; [|apply settles_ret].
  destruct (Js.truthy _); [apply settles_setItemAsync | apply settles_ret].
Qed.

Lemma settles_signInOnSuccess data : settles (UseAuth.signInOnSuccess data).
Proof.
  unfold UseAuth.signInOnSuccess.
  apply settles_bind; [apply settles_storeTokenSecurely | intros _].
  apply settles_bind; [|intros _; by apply settles_modify].
  unfold UseAuth.updateAuthStore.
  destruct (AuthTypes.user data); [by apply settles_modify | apply settles_ret].
Qed.

Lemma settles_useSignIn ax : settles (UseAuth.useSignIn ax).
Proof.
  apply settles_mutation; [|apply settles_signInOnSuccess|intros; apply settles_ret].
  apply settles_bind; [apply settles_request | intros; apply settles_ret].
Qed.

Lemma settles_useSignOut ax : settles (UseAuth.useSignOut ax).
Proof.
  assert (Hh : settles (SecureStore.deleteItemAsync "swuva-auth-token" ;;;
                        UseAuth.logout ;;; UseAuth.removeQueries UseAuth.authKeys.all)).
  { apply settles_bind; [apply settles_deleteItemAsync | intros _].
    apply settles_bind; intros; by apply settles_modify. }
  apply settles_mutation; [|done|done].
  apply settles_bind; [apply settles_request | intros; apply settles_ret].
Qed.

End Settles.

(** ** The auth hooks: failure paths, sign-up, synchronisation *)

Section HookLaws.

Import Props MoreProps.

Lemma mutation_rejected {D} (error : Err.AxiosError)
    (service : Api.AxiosOutcome D -> M D) (onSuccess : D -> M unit) (w : World) :
  service (Api.AxRejected error) w = Api.onRejected error w →
  UseAuth.mutation (service (Api.AxRejected error)) onSuccess UseAuth.noHandler w
  = Api.onRejected error w.
Proof.
  intros Hsvc. unfold UseAuth.mutation, try_catch, World.bind. rewrite Hsvc.
  pose proof (@onRejected_rejects D error w) as Hrej.
  destruct (Api.onRejected error w) as [[d|e] w']; simpl in *; [done|].
  by inversion Hrej.
Qed.

Lemma service_rejected {D} (error : Err.AxiosError) (w : World) :
  (data <~ Api.request (@Api.AxRejected D error) ;; ret data) w = Api.onRejected error w.
Proof.
  unfold World.bind. simpl.
  pose proof (@onRejected_rejects D error w) as Hrej.
  destruct (Api.onRejected error w) as [[d|e] w']; simpl in *; done.
Qed.

(** X4.  When the remote call of sign-up, sign-in, OTP verification or OTP
    sign-in fails, the hook adds nothing to what the API client does: the
    mutation rejects with the normalised error, the session store is
    unchanged, nothing is written to the secure store and no query is
    invalidated. *)
Theorem failed_auth_call_writes_nothing :
  Forall
    (fun hook : Api.AxiosOutcome AuthTypes.AuthSession -> M AuthTypes.AuthSession =>
       ∀ error w,
         hook (Api.AxRejected error) w = Api.onRejected error w
         ∧ fst (hook (Api.AxRejected error) w)
           = Throw (Err.ThrownApi (Api.normalize error))
         ∧ auth (snd (hook (Api.AxRejected error) w)) = auth w
         ∧ (Api.responseStatus error ≠ Some 401 →
            snd (hook (Api.AxRejected error) w) = w))
    authMutations.
Proof.
  assert (Hall : ∀ (onSuccess : AuthTypes.AuthSession -> M unit) error w,
    let run := UseAuth.mutation
                 (data <~ Api.request (Api.AxRejected error) ;; ret data)
                 onSuccess UseAuth.noHandler w in
    run = Api.onRejected error w
    ∧ fst run = Throw (Err.ThrownApi (Api.normalize error))
    ∧ auth (snd run) = auth w
    ∧ (Api.responseStatus error ≠ Some 401 → snd run = w)).
  { intros onSuccess error w run.
    assert (Hrun : run = Api.onRejected error w).
    { apply (mutation_rejected error (fun ax => data <~ Api.request ax ;; ret data)).
      apply service_rejected. }
    rewrite Hrun. split; [done|]. split; [apply onRejected_rejects|].
    split; [apply onRejected_keeps_auth|].
    intros Hst. unfold Api.onRejected, World.bind. by rewrite decide_False. }
  unfold authMutations.
  repeat first [apply Forall_nil_2 | apply Forall_cons_2]; intros error w; apply Hall.
Qed.

(** X5.  Sign-up never signs the user in: whatever the reply and whatever
    the secure store does, the session store is as it was.  On a reliable
    secure store a successful sign-up that carries a non-empty token writes
    it under 'swuva-auth-token' and invalidates the session query. *)
Theorem signUp_leaves_session_store (ax : Api.AxiosOutcome AuthTypes.AuthSession)
    (w : World) :
  auth (snd (UseAuth.useSignUp ax w)) = auth w
  ∧ ∀ st u x,
      reliable w → AuthTypes.token x ≠ "" →
      let data := {| AuthTypes.user := u; AuthTypes.session := Some x |} in
      let w' := snd (UseAuth.useSignUp (Api.AxFulfilled st data) w) in
      fst (UseAuth.useSignUp (Api.AxFulfilled st data) w) = Ok data
      ∧ secure w' = <["swuva-auth-token" := AuthTypes.token x]> (secure w)
      ∧ calls w' = (calls w ++ [SecureSet "swuva-auth-token" (AuthTypes.token x);
                                InvalidateQueries ["auth"; "session"]])%list.
Proof.
  split.
  - symmetry. apply (preserves_mutation (fun s => auth w = s));
      [| |intros; apply preserves_ret|done].
    + apply preserves_bind; [apply preserves_request | intros; apply preserves_ret].
    + intros d. apply preserves_bind; [apply preserves_storeTokenSecurely | intros _].
      apply preserves_record.
  - intros st u x Hw Hx data w'. subst w'.
    unfold UseAuth.useSignUp, UseAuth.mutation, AuthService.signUp,
      UseAuth.storeTokenSecurely, try_catch, World.bind. simpl.
    rewrite decide_False by done.
    destruct (setItemAsync_reliable "swuva-auth-token" (AuthTypes.token x) w Hw)
      as (w1 & -> & Hs & Ha & Hc & _).
    simpl. rewrite Hs, Hc, <- app_assoc. done.
Qed.

Lemma signInOnSuccess_reliable (u : AuthTypes.User) (x : AuthTypes.Session) (w : World) :
  reliable w → AuthTypes.token x ≠ "" →
  let data := {| AuthTypes.user := Some u; AuthTypes.session := Some x |} in
  ∃ w', UseAuth.signInOnSuccess data w = (Ok tt, w')
        ∧ secure w' = <["swuva-auth-token" := AuthTypes.token x]> (secure w)
        ∧ auth w' = AuthStore.setAuth (UseAuth.storeUser u) (AuthTypes.token x) (auth w)
        ∧ calls w' = (calls w ++ [SecureSet "swuva-auth-token" (AuthTypes.token x);
                                  InvalidateQueries ["auth"; "session"]])%list
        ∧ reliable w'.
Proof.
  intros Hw Hx data.
  unfold UseAuth.signInOnSuccess, UseAuth.storeTokenSecurely, UseAuth.updateAuthStore,
    World.bind. simpl. rewrite decide_False by done.
  destruct (setItemAsync_reliable "swuva-auth-token" (AuthTypes.token x) w Hw)
    as (w1 & -> & Hs & Ha & Hc & Hr).
  eexists. split; [done|]. simpl. rewrite Hs, Ha, Hc, <- app_assoc.
  unfold Js.or_str, AuthTypes.sessionToken. simpl. rewrite decide_False by done.
  done.
Qed.

Lemma useSignIn_fulfilled_reliable st (u : AuthTypes.User) (x : AuthTypes.Session)
    (w : World) :
  reliable w → AuthTypes.token x ≠ "" →
  let data := {| AuthTypes.user := Some u; AuthTypes.session := Some x |} in
  ∃ w', UseAuth.useSignIn (Api.AxFulfilled st data) w = (Ok data, w')
        ∧ secure w' = <["swuva-auth-token" := AuthTypes.token x]> (secure w)
        ∧ auth w' = AuthStore.setAuth (UseAuth.storeUser u) (AuthTypes.token x) (auth w)
        ∧ calls w' = (calls w ++ [SecureSet "swuva-auth-token" (AuthTypes.token x);
                                  InvalidateQueries ["auth"; "session"]])%list
        ∧ reliable w'.
Proof.
  intros Hw Hx data.
  destruct (signInOnSuccess_reliable u x w Hw Hx) as (w1 & Hrun & Hs & Ha & Hc & Hr).
  exists w1. split; [|done].
  unfold UseAuth.useSignIn, UseAuth.mutation, AuthService.signIn.
  cbn [Api.request]. fold data. apply try_catch_ok.
  rewrite (bind_ok _ _ w w data) by done.
  by rewrite (bind_ok _ _ _ _ _ Hrun).
Qed.

(** X6.  On a reliable secure store, a successful sign-in, OTP
    verification or OTP sign-in whose response has a user and a non-empty
    token leaves the two copies of the token in agreement: the secure store
    holds it under 'swuva-auth-token', the session store holds the same
    token with the response's user and [isAuthenticated = true]; the only
    collaborator calls are the secure write followed by the invalidation of
    the session query. *)
Theorem successful_sign_in_keeps_tokens_in_sync :
  Forall
    (fun hook : Api.AxiosOutcome AuthTypes.AuthSession -> M AuthTypes.AuthSession =>
       ∀ st u x w,
         reliable w → AuthTypes.token x ≠ "" →
         let data := {| AuthTypes.user := Some u; AuthTypes.session := Some x |} in
         let w' := snd (hook (Api.AxFulfilled st data) w) in
         fst (hook (Api.AxFulfilled st data) w) = Ok data
         ∧ secure w' !! "swuva-auth-token" = Some (AuthTypes.token x)
         ∧ AuthStore.token (auth w') = Some (AuthTypes.token x)
         ∧ AuthStore.user (auth w') = Some (UseAuth.storeUser u)
         ∧ AuthStore.isAuthenticated (auth w') = true
         ∧ calls w' = (calls w ++ [SecureSet "swuva-auth-token" (AuthTypes.token x);
                                   InvalidateQueries ["auth"; "session"]])%list)
    signInMutations.
Proof.
  assert (Hall : ∀ st u x w,
    reliable w → AuthTypes.token x ≠ "" →
    let data := {| AuthTypes.user := Some u; AuthTypes.session := Some x |} in
    let w' := snd (UseAuth.useSignIn (Api.AxFulfilled st data) w) in
    fst (UseAuth.useSignIn (Api.AxFulfilled st data) w) = Ok data
    ∧ secure w' !! "swuva-auth-token" = Some (AuthTypes.token x)
    ∧ AuthStore.token (auth w') = Some (AuthTypes.token x)
    ∧ AuthStore.user (auth w') = Some (UseAuth.storeUser u)
    ∧ AuthStore.isAuthenticated (auth w') = true
    ∧ calls w' = (calls w ++ [SecureSet "swuva-auth-token" (AuthTypes.token x);
                              InvalidateQueries ["auth"; "session"]])%list).
  { intros st u x w Hw Hx data w'. subst w' data.
    destruct (useSignIn_fulfilled_reliable st u x w Hw Hx) as (w1 & -> & Hs & Ha & Hc & _).
    simpl. rewrite Hs, Ha, Hc. split; [done|]. split; [apply lookup_insert_eq|done]. }
  unfold signInMutations.
  repeat first [apply Forall_nil_2 | apply Forall_cons_2];
    intros st u x w; apply (Hall st u x w).
Qed.

Lemma successful_sign_in_keeps_tokens_in_sync_witness :
  let u := {| AuthTypes.id := "user-1"; AuthTypes.email := "buyer@example.com";
              AuthTypes.name := Some "Test Buyer"; AuthTypes.role := AuthStore.BUYER;
              AuthTypes.emailVerified := true; AuthTypes.image := None;
              AuthTypes.createdAt := "2026-01-01"; AuthTypes.updatedAt := "2026-01-01" |} in
  let x := {| AuthTypes.session_id := "s1"; AuthTypes.userId := "user-1";
              AuthTypes.expiresAt := "2026-02-01";
              AuthTypes.token := "mock-session-token" |} in
  let data := {| AuthTypes.user := Some u; AuthTypes.session := Some x |} in
  let w' := snd (UseAuth.useVerifyEmailOTP (Api.AxFulfilled 200 data)
                   (UseAuth.firstLaunch ∅ [])) in
  secure w' !! "swuva-auth-token" = Some "mock-session-token"
  ∧ AuthStore.token (auth w') = Some "mock-session-token".
Proof.
  intros u x data w'.
  pose proof successful_sign_in_keeps_tokens_in_sync as Hall.
  apply Forall_cons in Hall as [_ Hall]. apply Forall_cons in Hall as [Hverify _].
  destruct (Hverify 200 u x (UseAuth.firstLaunch ∅ [])) as (_ & Hs & Ht & _);
    [constructor | discriminate |].
  split; [exact Hs | exact Ht].
Defined.

(** X7.  The secure-store write is awaited before the session store is
    touched: if it rejects, a sign-in that succeeded remotely settles as an
    error carrying the storage failure, the session store and the secure
    store are unchanged, and the session query is not invalidated. *)
Theorem rejected_token_write_blocks_sign_in :
  Forall
    (fun hook : Api.AxiosOutcome AuthTypes.AuthSession -> M AuthTypes.AuthSession =>
       ∀ st u x w faults,
         secureFaults w = true :: faults → AuthTypes.token x ≠ "" →
         let data := {| AuthTypes.user := u; AuthTypes.session := Some x |} in
         let w' := snd (hook (Api.AxFulfilled st data) w) in
         fst (hook (Api.AxFulfilled st data) w) = Throw SecureStore.failure
         ∧ auth w' = auth w
         ∧ secure w' = secure w
         ∧ calls w' = (calls w ++ [SecureSet "swuva-auth-token" (AuthTypes.token x)])%list)
    signInMutations.
Proof.
  assert (Hall : ∀ st u x w faults,
    secureFaults w = true :: faults → AuthTypes.token x ≠ "" →
    let data := {| AuthTypes.user := u; AuthTypes.session := Some x |} in
    let w' := snd (UseAuth.useSignIn (Api.AxFulfilled st data) w) in
    fst (UseAuth.useSignIn (Api.AxFulfilled st data) w) = Throw SecureStore.failure
    ∧ auth w' = auth w ∧ secure w' = secure w
    ∧ calls w' = (calls w ++ [SecureSet "swuva-auth-token" (AuthTypes.token x)])%list).
  { intros st u x w faults Hf Hx data w'. subst w'.
    unfold UseAuth.useSignIn, UseAuth.mutation, AuthService.signIn, try_catch,
      UseAuth.signInOnSuccess, UseAuth.storeTokenSecurely, World.bind,
      SecureStore.setItemAsync, nextFault. simpl.
    rewrite decide_False by done. rewrite Hf. done. }
  unfold signInMutations.
  repeat first [apply Forall_nil_2 | apply Forall_cons_2];
    intros st u x w faults; apply (Hall st u x w faults).
Qed.

Lemma rejected_token_write_blocks_sign_in_witness :
  let x := {| AuthTypes.session_id := "s1"; AuthTypes.userId := "user-1";
              AuthTypes.expiresAt := "2026-02-01";
              AuthTypes.token := "mock-session-token" |} in
  let data := {| AuthTypes.user := None; AuthTypes.session := Some x |} in
  let w := UseAuth.firstLaunch ∅ [true] in
  fst (UseAuth.useSignIn (Api.AxFulfilled 200 data) w) = Throw SecureStore.failure
  ∧ auth (snd (UseAuth.useSignIn (Api.AxFulfilled 200 data) w)) = auth w.
Proof.
  intros x data w.
  pose proof rejected_token_write_blocks_sign_in as Hall.
  apply Forall_cons in Hall as [Hsign _].
  destruct (Hsign 200 None x w []) as (Hr & Ha & _); [reflexivity | discriminate |].
  split; [exact Hr | exact Ha].
Defined.

(** X8.  The session query never rejects.  A fulfilled reply with both a
    user and a session authenticates the session store with the reply's
    token as it is (also an empty one) and touches neither the secure store
    nor the query cache; a fulfilled reply lacking either, and every
    rejected reply, leaves the session store as it was. *)
Theorem useSession_syncs_store_only (ax : Api.AxiosOutcome AuthTypes.AuthSession)
    (w : World) :
  (∃ r, fst (UseAuth.useSession ax w) = Ok r)
  ∧ (∀ st data,
       ax = Api.AxFulfilled st data →
       let w' := snd (UseAuth.useSession ax w) in
       fst (UseAuth.useSession ax w) = Ok (Some data)
       ∧ secure w' = secure w ∧ calls w' = calls w
       ∧ secureFaults w' = secureFaults w
       ∧ auth w' = match AuthTypes.user data, AuthTypes.session data with
                   | Some u, Some x =>
                       AuthStore.setAuth (UseAuth.storeUser u) (AuthTypes.token x) (auth w)
                   | _, _ => auth w
                   end)
  ∧ (∀ error,
       ax = Api.AxRejected error →
       fst (UseAuth.useSession ax w) = Ok None
       ∧ auth (snd (UseAuth.useSession ax w)) = auth w).
Proof.
  assert (Hrej : ∀ error,
    fst (UseAuth.useSession (Api.AxRejected error) w) = Ok None
    ∧ auth (snd (UseAuth.useSession (Api.AxRejected error) w)) = auth w).
  { intros error. unfold UseAuth.useSession, World.bind.
    pose proof (getSession_rejected error w) as Hg.
    assert (Ha : auth (snd (AuthService.getSession (Api.AxRejected error) w)) = auth w).
    { symmetry. apply (preserves_try_catch (fun s => auth w = s));
        [|intros; apply preserves_ret|done].
      apply preserves_bind; [apply preserves_request | intros; apply preserves_ret]. }
    destruct (AuthService.getSession _ w) as [[r|e] w1]; simpl in *; [|done].
    inversion Hg; subst. done. }
  assert (Hful : ∀ st data,
    let w' := snd (UseAuth.useSession (Api.AxFulfilled st data) w) in
    fst (UseAuth.useSession (Api.AxFulfilled st data) w) = Ok (Some data)
    ∧ secure w' = secure w ∧ calls w' = calls w
    ∧ secureFaults w' = secureFaults w
    ∧ auth w' = match AuthTypes.user data, AuthTypes.session data with
                | Some u, Some x =>
                    AuthStore.setAuth (UseAuth.storeUser u) (AuthTypes.token x) (auth w)
                | _, _ => auth w
                end).
  { intros st data. unfold UseAuth.useSession, UseAuth.selectSession, World.bind. simpl.
    destruct (AuthTypes.user data), (AuthTypes.session data); done. }
  split; [|split].
  - destruct ax as [st data|error]; eexists; [apply Hful | apply Hrej].
  - intros st data ->. apply Hful.
  - intros error ->. apply Hrej.
Qed.

Lemma useSession_syncs_store_only_witness :
  let u := {| AuthTypes.id := "user-1"; AuthTypes.email := "buyer@example.com";
              AuthTypes.name := None; AuthTypes.role := AuthStore.SELLER;
              AuthTypes.emailVerified := true; AuthTypes.image := None;
              AuthTypes.createdAt := "2026-01-01"; AuthTypes.updatedAt := "2026-01-01" |} in
  let x := {| AuthTypes.session_id := "s1"; AuthTypes.userId := "user-1";
              AuthTypes.expiresAt := "2026-02-01"; AuthTypes.token := "fresh" |} in
  let data := {| AuthTypes.user := Some u; AuthTypes.session := Some x |} in
  let w := UseAuth.firstLaunch {["swuva-auth-token" := "stale"]} [] in
  let w' := snd (UseAuth.useSession (Api.AxFulfilled 200 data) w) in
  AuthStore.token (auth w') = Some "fresh"
  ∧ secure w' !! "swuva-auth-token" = Some "stale".
Proof.
  intros u x data w w'.
  destruct (useSession_syncs_store_only (Api.AxFulfilled 200 data) w) as (_ & Hful & _).
  destruct (Hful 200 data eq_refl) as (_ & Hs & _ & _ & Ha).
  fold w' in Hs, Ha. rewrite Hs, Ha. split; reflexivity.
Defined.

End HookLaws.

(** ** The API client: the request interceptor *)

Section RequestLaws.

Import Props MoreProps ApiRequest.

Variable Platform_OS : string.
Variable EXPO_PUBLIC_APP_VERSION : option string.

Local Abbreviation onRequest := (ApiRequest.onRequest Platform_OS EXPO_PUBLIC_APP_VERSION).

Lemma getItemAsync_cases (key : string) (w : World) :
  ∃ w', secure w' = secure w ∧ auth w' = auth w ∧ calls w' = calls w
        ∧ (getItemAsync key w = (Ok (secure w !! key), w')
           ∨ getItemAsync key w = (Throw SecureStore.failure, w')).
Proof.
  exists (snd (nextFault w)). unfold getItemAsync, nextFault.
  destruct (secureFaults w) as [|[] fs]; simpl;
    (split; [done|]); (split; [done|]); (split; [done|]); [left|right|left]; done.
Qed.

Lemma getItemAsync_reliable (key : string) (w : World) :
  reliable w →
  ∃ w', getItemAsync key w = (Ok (secure w !! key), w') ∧ secure w' = secure w
        ∧ auth w' = auth w ∧ calls w' = calls w ∧ reliable w'.
Proof.
  intros Hw. unfold getItemAsync.
  destruct (nextFault_reliable w Hw) as (w1 & -> & Hs & Ha & Hc & Hr).
  exists w1. by rewrite Hs.
Qed.

(** The header the interceptor ends with, given what the read produced. *)
Lemma onRequest_run (config : Config) (w w1 : World) (r : Outcome (option string)) :
  getItemAsync "swuva-auth-token" w = (r, w1) →
  onRequest config w
  = (Ok (setHeader "X-App-Version" (Js.or_str EXPO_PUBLIC_APP_VERSION "1.0.0")
           (setHeader "X-Platform" Platform_OS
              match r with
              | Ok (Some t) =>
                  if decide (t = "") then config
                  else setHeader "Authorization" ("Bearer " +:+ t) config
              | _ => config
              end)), w1).
Proof.
  intros Hget. unfold ApiRequest.onRequest, World.bind, try_catch. rewrite Hget.
  destruct r as [[t|]|e]; simpl; try done.
  by case_decide.
Qed.

(** X9.  The request interceptor never fails a request: whatever the
    secure store does it returns a configuration, with the same method and
    URL, the two diagnostic headers set, every other header except
    Authorization as the caller gave it, and the session store, the
    secure store's content and the call log untouched.  Authorization is
    either the caller's, or "Bearer t" for the non-empty token [t] under
    'swuva-auth-token'. *)
Theorem request_interceptor_is_best_effort (config : Config) (w : World) :
  ∃ config' w',
    onRequest config w = (Ok config', w')
    ∧ secure w' = secure w ∧ auth w' = auth w ∧ calls w' = calls w
    ∧ method config' = method config ∧ url config' = url config
    ∧ headers config' !! "X-Platform" = Some Platform_OS
    ∧ headers config' !! "X-App-Version"
      = Some (Js.or_str EXPO_PUBLIC_APP_VERSION "1.0.0")
    ∧ (∀ k, k ≠ "Authorization" → k ≠ "X-Platform" → k ≠ "X-App-Version" →
            headers config' !! k = headers config !! k)
    ∧ (headers config' !! "Authorization" = headers config !! "Authorization"
       ∨ ∃ t, secure w !! "swuva-auth-token" = Some t ∧ t ≠ ""
              ∧ headers config' !! "Authorization" = Some ("Bearer " +:+ t)).
Proof.
  destruct (getItemAsync_cases "swuva-auth-token" w) as (w1 & Hs & Ha & Hc & [Hget|Hget]);
    rewrite (onRequest_run config w w1 _ Hget); eexists _, w1;
    (split; [done|]); (split; [done|]); (split; [done|]); (split; [done|]).
  - destruct (secure w !! "swuva-auth-token") as [t|] eqn:Ht; [case_decide as Hne|];
      simpl; (split; [done|]); (split; [done|]);
      (split; [by rewrite lookup_insert_ne, lookup_insert_eq|]);
      (split; [by rewrite lookup_insert_eq|]);
      (split; [intros k H1 H2 H3; by rewrite !lookup_insert_ne|]).
    + left. by rewrite !lookup_insert_ne.
    + right. exists t. rewrite !lookup_insert_ne, lookup_insert_eq by done. done.
    + left. by rewrite !lookup_insert_ne.
  - simpl. (split; [done|]); (split; [done|]).
    split; [by rewrite lookup_insert_ne, lookup_insert_eq|].
    split; [by rewrite lookup_insert_eq|].
    split; [intros k H1 H2 H3; by rewrite !lookup_insert_ne|].
    left. by rewrite !lookup_insert_ne.
Qed.

Lemma onRequest_reliable (config : Config) (w : World) :
  reliable w →
  ∃ config' w',
    onRequest config w = (Ok config', w')
    ∧ headers config' !! "Authorization"
      = match secure w !! "swuva-auth-token" with
        | Some t => if decide (t = "") then headers config !! "Authorization"
                    else Some ("Bearer " +:+ t)
        | None => headers config !! "Authorization"
        end.
Proof.
  intros Hw.
  destruct (getItemAsync_reliable "swuva-auth-token" w Hw) as (w1 & Hget & _).
  rewrite (onRequest_run config w w1 _ Hget). eexists _, w1. split; [done|].
  destruct (secure w !! "swuva-auth-token") as [t|]; [case_decide|]; simpl;
    rewrite !lookup_insert_ne by done; by rewrite ?lookup_insert_eq.
Qed.

Lemma useSignOut_reliable_run (ax : Api.AxiosOutcome unit) (w : World) :
  reliable w →
  secure (snd (UseAuth.useSignOut ax w)) !! "swuva-auth-token" = None
  ∧ reliable (snd (UseAuth.useSignOut ax w)).
Proof.
  intros Hw. split; [|by apply settles_useSignOut].
  unfold UseAuth.useSignOut, UseAuth.mutation, AuthService.signOut.
  destruct ax as [st []|error]; cbn [Api.request].
  - destruct (signOutHandler_reliable w Hw) as (w2 & Hrun & Hs & _).
    rewrite (try_catch_ok _ _ w w2 tt).
    + simpl. rewrite Hs. apply lookup_delete_eq.
    + rewrite (bind_ok _ _ w w tt) by done. by rewrite (bind_ok _ _ _ _ _ Hrun).
  - destruct (@onRejected_reliable unit error w Hw) as (w1 & Hrej & _ & Hr1 & _).
    destruct (signOutHandler_reliable w1 Hr1) as (w2 & Hrun & Hs & _).
    rewrite (try_catch_throw _ _ w w1 (Err.ThrownApi (Api.normalize error))).
    + rewrite (bind_ok _ _ _ _ _ Hrun). simpl. rewrite Hs. apply lookup_delete_eq.
    + apply bind_throw. by apply bind_throw.
Qed.

(** X10.  Sign-in, request, sign-out, request, on a reliable secure store:
    after a successful sign-in with a non-empty token the next request
    carries "Authorization: Bearer <that token>", replacing whatever the
    caller had put there; after the sign-out that follows, whatever the
    remote call answers, the next request carries the caller's own
    Authorization header (none, if the caller set none). *)
Theorem bearer_token_follows_the_session st (u : AuthTypes.User)
    (x : AuthTypes.Session) (ax : Api.AxiosOutcome unit) (config : Config) (w : World) :
  reliable w → AuthTypes.token x ≠ "" →
  let data := {| AuthTypes.user := Some u; AuthTypes.session := Some x |} in
  let w1 := snd (UseAuth.useSignIn (Api.AxFulfilled st data) w) in
  let w2 := snd (UseAuth.useSignOut ax w1) in
  (∃ c1, fst (onRequest config w1) = Ok c1
         ∧ headers c1 !! "Authorization" = Some ("Bearer " +:+ AuthTypes.token x))
  ∧ (∃ c2, fst (onRequest config w2) = Ok c2
           ∧ headers c2 !! "Authorization" = headers config !! "Authorization").
Proof.
  intros Hw Hx data w1 w2.
  destruct (useSignIn_fulfilled_reliable st u x w Hw Hx) as (w1' & Hrun & Hs & _ & _ & Hr1).
  assert (w1 = w1') as -> by (subst w1 data; by rewrite Hrun).
  split.
  - destruct (onRequest_reliable config w1' Hr1) as (c1 & w' & Hreq & Hauth).
    exists c1. rewrite Hreq. split; [done|].
    rewrite Hauth, Hs, lookup_insert_eq. by rewrite decide_False.
  - destruct (useSignOut_reliable_run ax w1' Hr1) as [Hgone Hr2]. fold w2 in Hgone, Hr2.
    destruct (onRequest_reliable config w2 Hr2) as (c2 & w' & Hreq & Hauth).
    exists c2. rewrite Hreq. split; [done|]. by rewrite Hauth, Hgone.
Qed.

End RequestLaws.

Lemma bearer_token_follows_the_session_witness :
  let u := {| AuthTypes.id := "user-1"; AuthTypes.email := "buyer@example.com";
              AuthTypes.name := None; AuthTypes.role := AuthStore.BUYER;
              AuthTypes.emailVerified := true; AuthTypes.image := None;
              AuthTypes.createdAt := "2026-01-01"; AuthTypes.updatedAt := "2026-01-01" |} in
  let x := {| AuthTypes.session_id := "s1"; AuthTypes.userId := "user-1";
              AuthTypes.expiresAt := "2026-02-01";
              AuthTypes.token := "mock-session-token" |} in
  let data := {| AuthTypes.user := Some u; AuthTypes.session := Some x |} in
  let config := {| ApiRequest.method := Some "get";
                   ApiRequest.url := Some "/auth/get-session";
                   ApiRequest.headers := {["Accept" := "application/json"]} |} in
  let w1 := snd (UseAuth.useSignIn (Api.AxFulfilled 200 data) (UseAuth.firstLaunch ∅ [])) in
  ∃ c1, fst (ApiRequest.onRequest "ios" None config w1) = Ok c1
        ∧ ApiRequest.headers c1 !! "Authorization" = Some "Bearer mock-session-token".
Proof.
  intros u x data config w1.
  destruct (bearer_token_follows_the_session "ios" None 200 u x
              (Api.AxFulfilled 200 tt) config (UseAuth.firstLaunch ∅ []))
    as [Hfirst _]; [constructor | discriminate |].
  exact Hfirst.
Defined.

(** ** The splash navigation effect: where it goes *)

Section SplashDestination.

Import Splash MoreProps.

Variable flag : GetItem.

Lemma destination_step (a : bool) (s : State) (e : Event) :
  authStays a e = true →
  isAuthenticated s = a →
  (replaced s = [] ∧ hasNavigatedRef s = false
   ∨ replaced s = [navigate a flag] ∧ hasNavigatedRef s = true) →
  isAuthenticated (step flag s e) = a
  ∧ (replaced (step flag s e) = [] ∧ hasNavigatedRef (step flag s e) = false
     ∨ replaced (step flag s e) = [navigate a flag]
       ∧ hasNavigatedRef (step flag s e) = true).
Proof.
  intros He Ha [[Hr Hn]|[Hr Hn]].
  - destruct s as [an h au g n r]. simpl in *. subst au n r.
    destruct e as [|b|b|g']; simpl in He;
      try (apply eqb_prop in He; subst b);
      destruct an, h, a; try destruct b; vm_compute; auto.
  - destruct (step_after_navigation flag s e Hn) as [Hr' Hn'].
    rewrite Hr', Hn', Hr. split; [|by right].
    unfold step, effect. case_decide.
    + destruct e as [|b|b|g']; simpl in *; try done. by apply eqb_prop in He.
    + replace (hasNavigatedRef (update e s)) with true by (by destruct e).
      rewrite !orb_true_r.
      destruct e as [|b|b|g']; simpl in *; try done. by apply eqb_prop in He.
Qed.

(** X11.  Where the splash sends the user is fixed by the authentication
    status in the render that decides.  If that status is [a] throughout,
    the only redirect ever made is the one for [a]: an authenticated start
    goes to the tabs and nowhere else; an unauthenticated one goes to login
    exactly when the onboarding flag reads 'true', and to onboarding
    otherwise, also when reading the flag fails; it never goes to the
    tabs. *)
Theorem splash_destination (hydrated a : bool) (group : string) (es : list Event) :
  forallb (authStays a) es = true →
  let s := run flag es (mount flag hydrated a group) in
  (replaced s = [] ∨ replaced s = [navigate a flag])
  ∧ navigate true flag = Tabs
  ∧ navigate false flag ≠ Tabs
  ∧ (navigate false flag = Login ↔ flag = GetResolves (Some "true"))
  ∧ (navigate false flag = Onboarding ↔ flag ≠ GetResolves (Some "true")).
Proof.
  intros Hes s. split; [|split].
  - assert (Hgen : ∀ es s0,
      forallb (authStays a) es = true →
      isAuthenticated s0 = a →
      (replaced s0 = [] ∧ hasNavigatedRef s0 = false
       ∨ replaced s0 = [navigate a flag] ∧ hasNavigatedRef s0 = true) →
      replaced (run flag es s0) = [] ∨ replaced (run flag es s0) = [navigate a flag]).
    { clear. intros es. induction es as [|e es IH]; intros s0 Hes Ha Hinv.
      - simpl. destruct Hinv as [[? _]|[? _]]; auto.
      - simpl in Hes. apply andb_prop in Hes as [He Hes]. simpl.
        destruct (destination_step a s0 e He Ha Hinv) as [Ha' Hinv'].
        by apply IH. }
    apply Hgen; [done| |left]; by destruct hydrated.
  - done.
  - unfold navigate. destruct flag as [|[v|]]; simpl; try case_decide; subst;
      (split; [done|]); split; split; try done; try congruence.
Qed.

End SplashDestination.

Lemma splash_destination_witness :
  let es := [Splash.StoreHydrated true; Splash.AnimationComplete;
             Splash.RouteGroup "(auth)"; Splash.StoreAuthenticated true] in
  Splash.replaced
    (Splash.run (Splash.GetResolves (Some "true")) es
       (Splash.mount (Splash.GetResolves (Some "true")) false true "splash"))
  = [Splash.Tabs].
Proof.
  intros es.
  destruct (splash_destination (Splash.GetResolves (Some "true")) false true "splash" es)
    as ([Hnone|Hone] & _); [reflexivity | discriminate Hnone | exact Hone].
Defined.

(** ** The OTP verification screen: clean-up, timer and resend *)

Section ScreenLaws.

Import VerifyOTP MoreProps.

Lemma timerConsistent_step (s : Screen) (e : Event) :
  timerConsistent s → timerConsistent (step s e).
Proof.
  unfold timerConsistent. intros (Hle & Hrun & Hready).
  pose proof (conj Hle (conj Hrun Hready)) as Hinv.
  unfold step. destruct (mounted s); simpl; [|done].
  destruct e as [text index|key index| | |r| | |r| |].
  - destruct (verifyPending s); [done|].
    destruct (OTPInput.handleDigitChange _ _ _ _); [|done].
    unfold handleOtpChange. by destruct (Js.truthy _).
  - destruct (verifyPending s); [done|].
    destruct (OTPInput.handleKeyPress _ _ _); [|done].
    unfold handleOtpChange. by destruct (Js.truthy _).
  - destruct (_ || _); [done|]. unfold handleVerify. by case_decide.
  - destruct (autoVerifyArmed s); [|done]. unfold handleVerify. by case_decide.
  - destruct (verifyMutating s); [|done]. destruct r; simpl; [|done].
    split; [done|]. split; [done|]. intros Hc. by destruct (Hready Hc) as [-> _].
  - destruct (timerRef s) eqn:Ht; [|by rewrite Ht].
    destruct (Hrun eq_refl) as [Hc H1]. unfold tick.
    destruct (Nat.leb_spec (countdown s) 1); simpl.
    + unfold RESEND_COOLDOWN. repeat split; try done; lia.
    + rewrite Hc, Ht. repeat split; try done; lia.
  - destruct (_ || _) eqn:Hg; [done|]. unfold handleResend. by rewrite Hg.
  - destruct (resendMutating s); [|done]. destruct r; simpl; [|done].
    unfold RESEND_COOLDOWN. repeat split; try done; lia.
  - done.
  - simpl. split; [done|]. split; [done|]. intros Hc. by destruct (Hready Hc) as [-> _].
Qed.

(** X13.  From mount on, through any events, the timer fields stay
    consistent: the countdown is at most 60; while the interval runs there
    is no resend button and at least one second is left; the resend button
    is shown only with the countdown at 0 and the interval stopped. *)
Theorem timer_fields_stay_consistent (emailParam : string) (es : list Event) :
  timerConsistent (run es (mount emailParam)).
Proof.
  assert (Hgen : ∀ es s, timerConsistent s → timerConsistent (run es s)).
  { clear. intros es. induction es as [|e es IH]; intros s Hs; [done|].
    rewrite run_cons. apply IH. by apply timerConsistent_step. }
  apply Hgen. unfold timerConsistent, mount, startCountdown. cbn.
  split; [done|]. split; [intros _; split; [done|]|done].
  unfold RESEND_COOLDOWN. lia.
Qed.

(** With no resend button and no resend in flight, an event other than a
    tick leaves the countdown and the resend fields alone. *)
Lemma counting_frame (s : Screen) (e : Event) :
  canResend s = false → resendMutating s = false → isTick e = false →
  countdown (step s e) = countdown s ∧ canResend (step s e) = false
  ∧ resendMutating (step s e) = false ∧ resendCalls (step s e) = resendCalls s.
Proof.
  intros Hc Hp He. unfold step. destruct (mounted s); simpl; [|done].
  destruct e as [text index|key index| | |r| | |r| |]; try done.
  - destruct (verifyPending s); [done|].
    destruct (OTPInput.handleDigitChange _ _ _ _); [|done].
    unfold handleOtpChange. by destruct (Js.truthy _).
  - destruct (verifyPending s); [done|].
    destruct (OTPInput.handleKeyPress _ _ _); [|done].
    unfold handleOtpChange. by destruct (Js.truthy _).
  - destruct (_ || _); [done|]. unfold handleVerify. by case_decide.
  - destruct (autoVerifyArmed s); [|done]. unfold handleVerify. by case_decide.
  - destruct (verifyMutating s); [|done]. by destruct r.
  - by rewrite Hc.
  - by rewrite Hp.
Qed.

Lemma counting_tick (s : Screen) :
  canResend s = false → resendMutating s = false → (2 ≤ countdown s)%nat →
  (countdown s ≤ S (countdown (step s Tick)))%nat ∧ canResend (step s Tick) = false
  ∧ resendMutating (step s Tick) = false ∧ resendCalls (step s Tick) = resendCalls s.
Proof.
  intros Hc Hp Hn. unfold step. destruct (mounted s); simpl; [|split; [lia|done]].
  destruct (timerRef s); [|split; [lia|done]]. unfold tick.
  destruct (Nat.leb_spec (countdown s) 1); [lia|]. simpl. split; [lia|done].
Qed.

Lemma no_resend_while_counting (es : list Event) (s : Screen) :
  canResend s = false → resendMutating s = false →
  (List.length (List.filter isTick es) < countdown s)%nat →
  resendCalls (run es s) = resendCalls s ∧ canResend (run es s) = false.
Proof.
  revert s. induction es as [|e es IH]; intros s Hc Hp Hlt; [done|].
  rewrite run_cons. simpl in Hlt. destruct (isTick e) eqn:He.
  - destruct e; try discriminate. simpl in Hlt.
    destruct (counting_tick s Hc Hp) as (Hn & Hc' & Hp' & Hr'); [lia|].
    destruct (IH (step s Tick) Hc' Hp') as [-> ->]; [lia|done].
  - destruct (counting_frame s e Hc Hp He) as (Hn & Hc' & Hp' & Hr').
    destruct (IH (step s e) Hc' Hp') as [-> ->]; [lia|done].
Qed.

(** X14.  The resend cooldown cannot be bypassed: from mount, whatever the
    user does, as long as fewer than 60 one-second ticks have fired no
    resend request has been started and the resend button is not shown. *)
Theorem no_resend_before_cooldown (emailParam : string) (es : list Event) :
  (List.length (List.filter isTick es) < RESEND_COOLDOWN)%nat →
  resendCalls (run es (mount emailParam)) = []
  ∧ canResend (run es (mount emailParam)) = false.
Proof. intros Hlt. by apply (no_resend_while_counting es (mount emailParam)). Qed.

Lemma no_resend_before_cooldown_witness :
  let es := (repeat Tick 59 ++ [PressResend; ResendSettled Succeeded; PressResend])%list in
  resendCalls (run es (mount "buyer@example.com")) = [].
Proof.
  intros es.
  apply (no_resend_before_cooldown "buyer@example.com" es). vm_compute. lia.
Defined.

(** Every event but a press of the resend button leaves the resend
    requests as they are. *)
Lemma resend_only_by_press (s : Screen) (e : Event) :
  e ≠ PressResend → resendCalls (step s e) = resendCalls s.
Proof.
  intros He. unfold step. destruct (mounted s); simpl; [|done].
  destruct e as [text index|key index| | |r| | |r| |]; try done.
  - destruct (verifyPending s); [done|].
    destruct (OTPInput.handleDigitChange _ _ _ _); [|done].
    unfold handleOtpChange. by destruct (Js.truthy _).
  - destruct (verifyPending s); [done|].
    destruct (OTPInput.handleKeyPress _ _ _); [|done].
    unfold handleOtpChange. by destruct (Js.truthy _).
  - destruct (_ || _); [done|]. unfold handleVerify. by case_decide.
  - destruct (autoVerifyArmed s); [|done]. unfold handleVerify. by case_decide.
  - destruct (verifyMutating s); [|done]. by destruct r.
  - destruct (timerRef s); [|done]. unfold tick. by destruct (_ <=? _)%nat.
  - destruct (resendMutating s); [|done]. by destruct r.
Qed.

(** A press of the resend button that the last render allows. *)
Lemma resend_press (s : Screen) :
  mounted s = true → canResend s = true → resendPending s = false →
  step s PressResend = set_resend true (resendCalls s ++ [email s]) s.
Proof.
  intros Hm Hc Hp. unfold step, handleResend. by rewrite Hm, Hc, Hp.
Qed.

(** X15.  Resend is guarded by what the screen last rendered.  An event
    starts a resend request only if it is a press of the resend button on
    a mounted screen that shows it and whose last render had
    [requestOTP.isPending] false, and then it starts exactly one, for the
    screen's email; once a render has shown the request pending, no event
    starts another.  The guard has no other knowledge of a request in
    flight: a second press before that render starts a second request,
    and a press after it starts none.  A resend that fails puts up an
    alert and changes neither the entered code, the error, nor the timer,
    so the button is still there. *)
Theorem resend_is_guarded (s : Screen) (e : Event) :
  (resendCalls (step s e) = resendCalls s
   ∨ (e = PressResend ∧ mounted s = true ∧ canResend s = true
      ∧ resendPending s = false ∧ resendMutating (step s e) = true
      ∧ resendCalls (step s e) = (resendCalls s ++ [email s])%list))
  ∧ (resendPending s = true → resendCalls (step s e) = resendCalls s)
  ∧ (mounted s = true → canResend s = true → resendPending s = false →
     resendCalls (run [PressResend; PressResend] s)
     = (resendCalls s ++ [email s; email s])%list
     ∧ resendCalls (run [PressResend; Rerender; PressResend] s)
       = (resendCalls s ++ [email s])%list)
  ∧ (∀ err, mounted s = true → resendMutating s = true →
       let s' := step s (ResendSettled (Failed err)) in
       resendMutating s' = false ∧ otp s' = otp s ∧ error s' = error s
       ∧ phase s' = phase s ∧ timerRef s' = timerRef s
       ∧ effects s' = (effects s ++ [Ui.Haptic Ui.Error;
                                     Ui.Alert "Error" (Api.getErrorMessage err)])%list).
Proof.
  assert (Hcases : resendCalls (step s e) = resendCalls s
     ∨ (e = PressResend ∧ mounted s = true ∧ canResend s = true
        ∧ resendPending s = false ∧ resendMutating (step s e) = true
        ∧ resendCalls (step s e) = (resendCalls s ++ [email s])%list)).
  { destruct e as [text index|key index| | |r| | |r| |];
      try (left; by apply resend_only_by_press).
    destruct (mounted s) eqn:Hm; [|left; unfold step; by rewrite Hm].
    destruct (canResend s) eqn:Hc, (resendPending s) eqn:Hp;
      try (left; unfold step; by rewrite Hm, ?Hc, ?Hp).
    right. by rewrite resend_press. }
  split; [done|]. split.
  { intros Hp. destruct Hcases as [|(_ & _ & _ & Hp' & _)]; [done|congruence]. }
  split.
  { intros Hm Hc Hp. rewrite !run_cons. unfold run, fold_left.
    rewrite (resend_press s Hm Hc Hp). split.
    - rewrite resend_press by done. simpl. by rewrite <- app_assoc.
    - unfold step, render. simpl. do 2 (destruct (mounted s); simpl; rewrite ?orb_true_r; try done). }
  intros err Hm Hp s'. subst s'. unfold step. rewrite Hm, Hp. simpl. done.
Qed.

End ScreenLaws.

(** ** The OTP input: what it hands to [onChange] *)

Section OTPInputLaws.

Import OTPInput MoreProps.

Lemma length_string_of_list_ascii (l : list ascii) :
  String.length (string_of_list_ascii l) = List.length l.
Proof. induction l as [|c l IH]; simpl; congruence. Qed.

Lemma length_list_ascii_of_string (v : string) :
  List.length (list_ascii_of_string v) = String.length v.
Proof. induction v as [|c v IH]; simpl; congruence. Qed.

Lemma allDigits_of_list (l : list ascii) :
  Forall (fun c => is_digit c = true) l → allDigits (string_of_list_ascii l).
Proof. intros Hl. unfold allDigits. by rewrite list_ascii_of_string_of_list_ascii. Qed.

Lemma lastDigit_Some (text : string) (d : ascii) :
  lastDigit text = Some d → is_digit d = true ∧ In d (list_ascii_of_string text).
Proof.
  unfold lastDigit. intros Hl. apply last_Some_elem_of, list_elem_of_In in Hl.
  apply List.filter_In in Hl. tauto.
Qed.

Lemma list_delete_beyond {A} (l : list A) (i : nat) :
  (List.length l ≤ i)%nat → delete i l = l.
Proof.
  revert i. induction l as [|x l IH]; intros [|i] Hi; simpl in *; try done; [lia|].
  f_equal. apply IH. lia.
Qed.

(** X16.  What a box hands to [onChange] when text arrives.  If the text
    holds no digit, nothing.  Otherwise a value of at most [len]
    characters, at most one longer than the current one, that consists of
    digits whenever the current value does; for a box inside the current
    value the length is unchanged. *)
Theorem digit_change_is_well_formed (len : nat) (value text : string) (index : nat) :
  match handleDigitChange len value text index with
  | Some v =>
      (String.length v ≤ len)%nat
      ∧ (String.length v ≤ S (String.length value))%nat
      ∧ (allDigits value → allDigits v)
      ∧ ((index < String.length value)%nat → (String.length value ≤ len)%nat →
         String.length v = String.length value)
      ∧ ∃ d, is_digit d = true ∧ In d (list_ascii_of_string text)
  | None => List.filter is_digit (list_ascii_of_string text) = []
  end.
Proof.
  unfold handleDigitChange. destruct (lastDigit text) as [d|] eqn:Hd.
  - destruct (lastDigit_Some text d Hd) as [Hdigit Hin].
    rewrite length_string_of_list_ascii, length_take.
    assert (Hlen : List.length (assign index d (list_ascii_of_string value))
                   = if decide (index < String.length value)%nat
                     then String.length value else S (String.length value)).
    { unfold assign. rewrite length_list_ascii_of_string.
      case_decide; [by rewrite length_insert, length_list_ascii_of_string|].
      rewrite length_app, length_list_ascii_of_string. simpl. lia. }
    rewrite Hlen. split; [lia|]. split; [case_decide; lia|].
    split; [|split; [|by exists d]].
    + intros Hv. apply allDigits_of_list, Forall_take. unfold assign.
      destruct (decide (index < List.length (list_ascii_of_string value))%nat);
        [by apply Forall_insert|].
      apply Forall_app. split; [done|]. by constructor.
    + intros Hi Hle. rewrite decide_True by done. lia.
  - unfold lastDigit in Hd. by apply last_None in Hd.
Qed.

(** X17.  What a box hands to [onChange] on a key press.  Any key but
    Backspace, and Backspace in the first box of an empty code, hands over
    nothing.  Backspace otherwise hands over the value with at most one
    character removed, exactly one when the box is inside the value or
    just after its end, still made of digits when the value was. *)
Theorem backspace_removes_at_most_one (value key : string) (index : nat) :
  (key ≠ "Backspace" → handleKeyPress value key index = None)
  ∧ handleKeyPress "" "Backspace" 0 = None
  ∧ match handleKeyPress value "Backspace" index with
    | Some v =>
        (String.length v ≤ String.length value)%nat
        ∧ (String.length value ≤ S (String.length v))%nat
        ∧ (allDigits value → allDigits v)
        ∧ ((index ≤ String.length value)%nat → value ≠ "" →
           S (String.length v) = String.length value)
    | None => value = "" ∧ index = 0
    end.
Proof.
  split; [intros Hk; unfold handleKeyPress; by rewrite decide_False|].
  split; [done|].
  unfold handleKeyPress. rewrite decide_True by done.
  rewrite length_list_ascii_of_string.
  assert (Hdel : ∀ i, (i < String.length value)%nat →
            S (List.length (delete i (list_ascii_of_string value))) = String.length value).
  { intros i Hi. rewrite length_delete.
    - rewrite length_list_ascii_of_string. lia.
    - apply lookup_lt_is_Some. by rewrite length_list_ascii_of_string. }
  assert (Hnonempty : value ≠ "" → (0 < String.length value)%nat).
  { destruct value; [done|]. simpl. lia. }
  case_decide as Hi; [|case_decide as H0].
  - rewrite length_string_of_list_ascii. specialize (Hdel index Hi).
    split; [lia|]. split; [lia|]. split; [|done].
    intros Hv. by apply allDigits_of_list, Forall_delete.
  - rewrite length_string_of_list_ascii.
    destruct (decide (index - 1 < String.length value)%nat) as [Hin|Hout].
    + specialize (Hdel (index - 1) Hin).
      split; [lia|]. split; [lia|]. split; [|done].
      intros Hv. by apply allDigits_of_list, Forall_delete.
    + rewrite list_delete_beyond by (rewrite length_list_ascii_of_string; lia).
      rewrite length_list_ascii_of_string.
      split; [lia|]. split; [lia|]. split; [|intros; lia].
      intros Hv. by apply allDigits_of_list.
  - split; [|lia]. destruct value; [done|]. simpl in Hi. lia.
Qed.

Lemma type_one_digit (s : VerifyOTP.Screen) (pre : list ascii) (d : ascii) :
  VerifyOTP.mounted s = true → VerifyOTP.verifyPending s = false →
  VerifyOTP.verifyMutating s = false →
  VerifyOTP.otp s = string_of_list_ascii pre →
  is_digit d = true → (S (List.length pre) ≤ VerifyOTP.OTP_LENGTH)%nat →
  let s' := VerifyOTP.step s (VerifyOTP.DigitChange (String d EmptyString)
                                (List.length pre)) in
  VerifyOTP.otp s' = string_of_list_ascii (pre ++ [d])
  ∧ VerifyOTP.mounted s' = true ∧ VerifyOTP.verifyPending s' = false
  ∧ VerifyOTP.verifyMutating s' = false
  ∧ VerifyOTP.verifyCalls s' = VerifyOTP.verifyCalls s
  ∧ VerifyOTP.email s' = VerifyOTP.email s
  ∧ Js.truthy (VerifyOTP.error s') = false
  ∧ VerifyOTP.autoVerifyArmed s'
    = bool_decide (List.length (pre ++ [d]) = VerifyOTP.OTP_LENGTH).
Proof.
  intros Hm Hp Hv Hotp Hd Hlen s'. subst s'. unfold VerifyOTP.step. rewrite Hm, Hp. simpl.
  unfold handleDigitChange, lastDigit. simpl. rewrite Hd. simpl.
  rewrite Hotp, list_ascii_of_string_of_list_ascii. unfold assign.
  rewrite decide_False by lia.
  rewrite take_ge by (rewrite length_app; simpl; lia).
  unfold VerifyOTP.render, VerifyOTP.autoVerifyCondition, VerifyOTP.handleOtpChange.
  destruct (Js.truthy (VerifyOTP.error s)) eqn:He; simpl; rewrite ?He, Hv, Hm;
    rewrite length_string_of_list_ascii, !andb_true_r; done.
Qed.

Lemma type_digits_run (ds pre : list ascii) (s : VerifyOTP.Screen) :
  VerifyOTP.mounted s = true → VerifyOTP.verifyPending s = false →
  VerifyOTP.verifyMutating s = false →
  VerifyOTP.otp s = string_of_list_ascii pre →
  Forall (fun c => is_digit c = true) ds →
  (List.length pre + List.length ds ≤ VerifyOTP.OTP_LENGTH)%nat →
  let s' := VerifyOTP.run (typeDigits (List.length pre) ds) s in
  VerifyOTP.otp s' = string_of_list_ascii (pre ++ ds)
  ∧ VerifyOTP.mounted s' = true ∧ VerifyOTP.verifyPending s' = false
  ∧ VerifyOTP.verifyCalls s' = VerifyOTP.verifyCalls s
  ∧ VerifyOTP.email s' = VerifyOTP.email s
  ∧ (ds ≠ [] →
     VerifyOTP.autoVerifyArmed s'
     = bool_decide (List.length (pre ++ ds) = VerifyOTP.OTP_LENGTH)).
Proof.
  revert pre s. induction ds as [|d ds IH]; intros pre s Hm Hp Hv Hotp Hds Hlen.
  - simpl. rewrite app_nil_r. done.
  - apply Forall_cons in Hds as [Hd Hds]. simpl in Hlen. cbv zeta. simpl typeDigits.
    rewrite run_cons.
    destruct (type_one_digit s pre d Hm Hp Hv Hotp Hd)
      as (Hotp' & Hm' & Hp' & Hv' & Hc' & He' & _ & Harm'); [lia|].
    replace (S (List.length pre)) with (List.length (pre ++ [d])%list)
      by (rewrite length_app; simpl; lia).
    destruct (IH (pre ++ [d])%list _ Hm' Hp' Hv' Hotp' Hds) as (Ho & ? & ? & Hc & He & Harm).
    { rewrite length_app. simpl. lia. }
    cbv zeta in Hotp', Hm', Hp', Hc', He', Harm'.
    rewrite <- app_assoc in Ho, Harm. simpl in Ho, Harm.
    rewrite Ho, Hc, He, Hc', He'. repeat split; try done.
    intros _. destruct ds as [|d' ds']; [exact Harm'|]. by apply Harm.
Qed.

(** X18.  Typing is faithful: on the freshly mounted screen, typing up to
    six digits, one per box from the first box on, leaves exactly those
    digits as the code and starts no verification; with six digits the
    auto-verify timeout is set, and when it fires the one verification
    started is for the screen's email and exactly the digits typed. *)
Theorem typed_digits_are_the_code (emailParam : string) (ds : list ascii) :
  Forall (fun c => is_digit c = true) ds →
  (List.length ds ≤ VerifyOTP.OTP_LENGTH)%nat →
  let s := VerifyOTP.run (typeDigits 0 ds) (VerifyOTP.mount emailParam) in
  VerifyOTP.otp s = string_of_list_ascii ds
  ∧ VerifyOTP.verifyCalls s = []
  ∧ VerifyOTP.autoVerifyArmed s = bool_decide (List.length ds = VerifyOTP.OTP_LENGTH)
  ∧ (List.length ds = VerifyOTP.OTP_LENGTH →
     VerifyOTP.verifyCalls (VerifyOTP.step s VerifyOTP.AutoVerifyTimeout)
     = [(emailParam, string_of_list_ascii ds)]).
Proof.
  intros Hds Hlen s.
  destruct (type_digits_run ds [] (VerifyOTP.mount emailParam))
    as (Ho & Hm & Hp & Hc & He & Harm'); try done.
  cbn [List.length app] in Ho, Hm, Hp, Hc, He, Harm'.
  fold s in Ho, Hm, Hp, Hc, He, Harm'.
  assert (Harm : VerifyOTP.autoVerifyArmed s
                 = bool_decide (List.length ds = VerifyOTP.OTP_LENGTH)).
  { destruct ds as [|d ds']; [done|]. by apply Harm'. }
  split; [done|]. split; [done|]. split; [done|].
  intros Hl. rewrite autoVerify_fires.
  - simpl. by rewrite Hc, He, Ho.
  - done.
  - rewrite Harm. by apply bool_decide_eq_true_2.
  - by rewrite Ho, length_string_of_list_ascii.
Qed.

Lemma typed_digits_are_the_code_witness :
  let ds := list_ascii_of_string "482913" in
  let s := VerifyOTP.run (typeDigits 0 ds) (VerifyOTP.mount "buyer@example.com") in
  VerifyOTP.otp s = "482913"
  ∧ VerifyOTP.verifyCalls (VerifyOTP.step s VerifyOTP.AutoVerifyTimeout)
    = [("buyer@example.com", "482913")].
Proof.
  intros ds s.
  destruct (typed_digits_are_the_code "buyer@example.com" ds) as (Ho & _ & _ & Hfire).
  - repeat constructor.
  - vm_compute. lia.
  - split; [exact Ho | exact (Hfire eq_refl)].
Defined.

End OTPInputLaws.

(** ** The OTP verification screen: what it displays *)

Section ViewLaws.

Import VerifyOTPView MoreProps.

Local Arguments String.append : simpl nomatch.

Lemma split_noAt (s : string) : noAt s → split "@" s = [s].
Proof.
  induction s as [|c r IH]; [done|]. intros [Hc Hr]. simpl.
  destruct (Ascii.eqb_spec c "@"); [done|]. by rewrite IH.
Qed.

Lemma split_at (a b : string) :
  noAt a → split "@" (a +:+ String "@" b) = a :: split "@" b.
Proof.
  induction a as [|c r IH]; [done|]. intros [Hc Hr]. simpl.
  destruct (Ascii.eqb_spec c "@"); [done|]. by rewrite IH.
Qed.

Lemma substring_min (n : nat) (s : string) :
  substring 0 (Nat.min n (String.length s)) s = substring 0 n s.
Proof.
  revert n. induction s as [|c r IH]; intros [|n]; simpl; try done.
  by rewrite IH.
Qed.

Lemma append_assoc (a b c : string) : (a +:+ b) +:+ c = a +:+ (b +:+ c).
Proof. induction a as [|x a IH]; simpl; congruence. Qed.

Lemma append_nonempty (a : string) (c : ascii) (b : string) : a +:+ String c b ≠ "".
Proof. by destruct a. Qed.

(** X19.  [maskEmail] on the text before and after the first '@', for a
    local part of ASCII characters.  With a non-empty local part and
    domain it shows at most the first two characters of the local part,
    then "***", then '@' and the domain unchanged; whatever follows a
    second '@' is dropped.  A text without '@', with nothing before it or
    nothing after it, is returned as it is. *)
Theorem maskEmail_hides_local_part (localPart domain rest : string) :
  isAscii localPart = true → noAt localPart → noAt domain →
  maskEmail localPart = localPart
  ∧ maskEmail ("@" +:+ domain) = "@" +:+ domain
  ∧ maskEmail (localPart +:+ "@") = localPart +:+ "@"
  ∧ (localPart ≠ "" → domain ≠ "" →
     maskEmail (localPart +:+ "@" +:+ domain)
     = substring 0 2 localPart +:+ "***" +:+ "@" +:+ domain
     ∧ maskEmail (localPart +:+ "@" +:+ domain +:+ "@" +:+ rest)
       = maskEmail (localPart +:+ "@" +:+ domain)).
Proof.
  intros _ Hl Hd.
  assert (Hmask : ∀ tail, split "@" tail !! 0%nat = Some domain →
            localPart ≠ "" → domain ≠ "" →
            maskEmail (localPart +:+ String "@" tail)
            = substring 0 2 localPart +:+ "***" +:+ "@" +:+ domain).
  { intros tail Htail Hl0 Hd0. unfold maskEmail. rewrite split_at by done.
    change ((localPart :: split "@" tail) !! 0%nat) with (Some localPart).
    change ((localPart :: split "@" tail) !! 1%nat) with (split "@" tail !! 0%nat).
    rewrite Htail. rewrite !decide_False by done.
    by rewrite substring_min, append_assoc. }
  split; [|split; [|split]].
  - unfold maskEmail. by rewrite split_noAt.
  - unfold maskEmail. change ("@" +:+ domain) with ("" +:+ String "@" domain).
    rewrite split_at by done. simpl.
    by destruct (split "@" domain !! 0%nat).
  - unfold maskEmail. rewrite split_at by done. simpl.
    destruct (decide (localPart = "")); done.
  - intros Hl0 Hd0.
    change (maskEmail (localPart +:+ "@" +:+ domain))
      with (maskEmail (localPart +:+ String "@" domain)).
    change (maskEmail (localPart +:+ "@" +:+ domain +:+ "@" +:+ rest))
      with (maskEmail (localPart +:+ String "@" (domain +:+ String "@" rest))).
    rewrite (Hmask domain), (Hmask (domain +:+ String "@" rest)); try done.
    + by rewrite split_at.
    + by rewrite split_noAt.
Qed.

Lemma maskEmail_hides_local_part_witness :
  maskEmail "buyer@example.com" = "bu***@example.com"
  ∧ maskEmail ("buyer" +:+ "@" +:+ "example.com" +:+ "@" +:+ "evil.org")
    = "bu***@example.com".
Proof.
  destruct (maskEmail_hides_local_part "buyer" "example.com" "evil.org")
    as (_ & _ & _ & Hmask); [reflexivity | by vm_compute | by vm_compute |].
  destruct Hmask as [H1 H2]; [discriminate | discriminate |].
  split; [exact H1 | exact (eq_trans H2 H1)].
Defined.

Lemma padStart_two_digits (n : nat) :
  (n < 100)%nat → padStart 2 "0" (pretty n) = twoDigits n.
Proof.
  intros Hn.
  assert (Hall : forallb (fun k => String.eqb (padStart 2 "0" (pretty k)) (twoDigits k))
                   (seq 0 100) = true) by (by vm_compute).
  rewrite forallb_forall in Hall.
  apply String.eqb_eq, Hall, in_seq. lia.
Qed.

(** X20.  For every number of seconds below 6000, and so for every value
    the countdown takes, [formatCountdown] gives exactly five characters:
    the minutes as two decimal digits, a colon, the seconds of the minute
    as two decimal digits. *)
Theorem formatCountdown_is_mm_ss (seconds : nat) :
  (seconds < 60 * 100)%nat →
  formatCountdown seconds
  = twoDigits (seconds / 60) +:+ ":" +:+ twoDigits (seconds mod 60)
  ∧ String.length (formatCountdown seconds) = 5.
Proof.
  intros Hs. unfold formatCountdown.
  rewrite !padStart_two_digits.
  - done.
  - pose proof (Nat.mod_upper_bound seconds 60). lia.
  - by apply Nat.Div0.div_lt_upper_bound.
Qed.

Lemma formatCountdown_is_mm_ss_witness :
  formatCountdown 60 = "01:00" ∧ String.length (formatCountdown 60) = 5.
Proof. apply (formatCountdown_is_mm_ss 60). vm_compute. lia. Defined.

End ViewLaws.

(** ** Password validation *)

Section ValidationLaws.

Import Validation.

Local Arguments String.append : simpl nomatch.

Lemma list_ascii_of_string_app (a b : string) :
  list_ascii_of_string (a +:+ b)
  = (list_ascii_of_string a ++ list_ascii_of_string b)%list.
Proof. induction a as [|c a IH]; simpl; congruence. Qed.

Lemma length_append (a b : string) :
  String.length (a +:+ b) = String.length a + String.length b.
Proof. induction a as [|c a IH]; simpl; congruence. Qed.

Lemma test_app (class : ascii -> bool) (a b : string) :
  test class (a +:+ b) = test class a || test class b.
Proof. unfold test. by rewrite list_ascii_of_string_app, existsb_app. Qed.

Lemma bump_mono (b1 b2 : bool) : (b1 = true → b2 = true) → (bump b1 ≤ bump b2)%nat.
Proof.
  destruct b1, b2; simpl; intros H; first [lia | by specialize (H eq_refl)].
Qed.

(** X21.  For a password of ASCII characters, the strength label is
    decided by the length and the score: a password that
    [validatePassword] rejects (shorter than 8) has score 0 and the label
    'Too Short'; any other has a score from 1 to 5, labelled 'Weak' for 1,
    'Fair' for 2, 'Good' for 3 and 'Strong' for 4 and 5, with the colour
    of that level; the fall-back of the lookup is never needed. *)
Theorem password_strength_label (password : string) :
  MoreProps.isAscii password = true →
  let r := getPasswordStrength password in
  (score r = 0 ↔ validatePassword password = false)
  ∧ (score r ≤ 5)%nat
  ∧ label r = (if validatePassword password
               then match score r with
                    | 0 | 1 => "Weak"
                    | 2 => "Fair"
                    | 3 => "Good"
                    | _ => "Strong"
                    end
               else "Too Short")
  ∧ (validatePassword password = true →
     level (Z.min (Z.of_nat (score r) - 1) 3) = Some (label r, color r)).
Proof.
  intros _.
  unfold getPasswordStrength, validatePassword, PASSWORD_MIN_LENGTH.
  destruct (Nat.ltb_spec (String.length password) 8) as [Hshort|Hlong].
  - replace (8 <=? String.length password)%nat with false
      by (symmetry; apply Nat.leb_gt; lia).
    simpl. repeat split; try done; lia.
  - replace (8 <=? String.length password)%nat with true
      by (symmetry; apply Nat.leb_le; lia).
    destruct (12 <=? String.length password)%nat,
             (test lower password && test upper password),
             (test digit password), (test other password);
      vm_compute; repeat split; try done; lia.
Qed.

(** X22.  Adding characters never lowers the score: for every password
    and every text appended to it, the score of the longer password is at
    least the score of the shorter one. *)
Theorem password_strength_grows (password more : string) :
  (score (getPasswordStrength password)
   ≤ score (getPasswordStrength (password +:+ more)))%nat.
Proof.
  unfold getPasswordStrength, PASSWORD_MIN_LENGTH.
  rewrite length_append, !test_app.
  destruct (Nat.ltb_spec (String.length password) 8) as [Hshort|Hlong]; [simpl; lia|].
  destruct (Nat.ltb_spec (String.length password + String.length more) 8); [lia|].
  cbn [score].
  repeat apply Nat.add_le_mono; apply bump_mono.
  - intros H1. apply Nat.leb_le in H1. apply Nat.leb_le. lia.
  - intros H1. apply Nat.leb_le in H1. apply Nat.leb_le. lia.
  - intros H1. apply andb_prop in H1 as [H1 H2]. by rewrite H1, H2.
  - intros H1. by rewrite H1.
  - intros H1. by rewrite H1.
Qed.

End ValidationLaws.

(** ** The forgot-password screen: validation, errors, the email field *)

Section ForgotPasswordLaws.

Import ForgotPassword ForgotPasswordForm.

Variable EMAIL_REGEX_test : string -> bool.

Local Abbreviation validateForm := (ForgotPassword.validateForm EMAIL_REGEX_test).
Local Abbreviation handleSubmit := (ForgotPassword.handleSubmit EMAIL_REGEX_test).
Local Abbreviation handleEmailBlur := (ForgotPasswordForm.handleEmailBlur EMAIL_REGEX_test).
Local Abbreviation handleEmailChange :=
  (ForgotPasswordForm.handleEmailChange EMAIL_REGEX_test).

(** X23.  An email of ASCII characters that fails validation never reaches
    the network: the reply has no influence on what [handleSubmit] does,
    nothing is navigated to, the only effects are dismissing the keyboard
    and the error haptic, and the field shows 'Email is required' for a
    blank email and 'Please enter a valid email' otherwise. *)
Theorem invalid_email_is_not_submitted
    (reply reply' : Outcome ForgotPasswordResponse) (s : Screen) :
  MoreProps.isAscii (email s) = true →
  fst (validateForm (email s) s) = false →
  handleSubmit reply s = handleSubmit reply' s
  ∧ navigations (effects (handleSubmit reply s)) = navigations (effects s)
  ∧ effects (handleSubmit reply s)
    = (effects s ++ [Ui.KeyboardDismiss; Ui.Haptic Ui.Error])%list
  ∧ error (handleSubmit reply s)
    = Some (if decide (Js.trim (email s) = "") then "Email is required"
            else "Please enter a valid email").
Proof.
  intros _.
  unfold ForgotPassword.handleSubmit, ForgotPassword.validateForm. simpl.
  case_decide as Hblank; simpl.
  - intros _. rewrite <- !app_assoc. repeat split; try done.
    rewrite !navigations_app. simpl. by rewrite app_nil_r.
  - destruct (negb _) eqn:Hv; simpl; [|done].
    intros _. rewrite <- !app_assoc. repeat split; try done.
    rewrite !navigations_app. simpl. by rewrite app_nil_r.
Qed.

(** X24.  With a valid email on a mounted screen, an error whose message
    mentions rate limiting or a connection problem does not navigate: it
    puts up one alert ('Too Many Attempts' when the message matches the
    rate-limit test, 'Connection Error' otherwise) after the error haptic.
    On a screen that has unmounted meanwhile, no reply, success or error,
    has any effect. *)
Theorem throttled_or_offline_stays_on_screen (err : Err.Thrown) (s : Screen) :
  fst (validateForm (email s) s) = true →
  isRateLimited (Api.getErrorMessage err)
  || isConnectionProblem (Api.getErrorMessage err) = true →
  (isMountedRef s = true →
   navigations (effects (handleSubmit (Throw err) s)) = navigations (effects s)
   ∧ ∃ body,
       effects (handleSubmit (Throw err) s)
       = (effects s ++ [Ui.KeyboardDismiss; Ui.Haptic Ui.Medium; Ui.Haptic Ui.Error;
                        Ui.Alert (if isRateLimited (Api.getErrorMessage err)
                                  then "Too Many Attempts" else "Connection Error")
                                 body])%list)
  ∧ (isMountedRef s = false →
     ∀ reply, effects (handleSubmit reply s)
              = (effects s ++ [Ui.KeyboardDismiss; Ui.Haptic Ui.Medium])%list).
Proof.
  unfold ForgotPassword.handleSubmit, ForgotPassword.validateForm. simpl.
  case_decide as Hblank; [done|]. destruct (negb _); [done|]. simpl.
  intros _ Hclass. split.
  - intros Hm. unfold onError. simpl. rewrite Hm. simpl.
    destruct (isRateLimited _) eqn:Hr; simpl in *.
    + rewrite <- !app_assoc, !navigations_app. simpl.
      rewrite app_nil_r. split; [done|]. by eexists.
    + rewrite Hclass. simpl. rewrite <- !app_assoc, !navigations_app. simpl.
      rewrite app_nil_r. split; [done|]. by eexists.
  - intros Hm [resp|e]; unfold onSuccess, onError; simpl; rewrite Hm; simpl;
      by rewrite <- !app_assoc.
Qed.

(** X25.  The field's inline feedback agrees with the submit validation:
    leaving the field ends with no error exactly when [validateForm]
    accepts the email, and otherwise with the error [validateForm] would
    set; leaving the field marks it touched and keeps the text.  Typing
    keeps the text typed and never introduces an error: the error is the
    one there was, or none. *)
Theorem email_field_feedback_matches_submit (text : string) (s : Screen) :
  (error (handleEmailBlur s) = None ↔ fst (validateForm (email s) s) = true)
  ∧ (fst (validateForm (email s) s) = false →
     error (handleEmailBlur s) = error (snd (validateForm (email s) s)))
  ∧ touched (handleEmailBlur s) = true
  ∧ email (handleEmailBlur s) = email s
  ∧ email (handleEmailChange text s) = text
  ∧ (error (handleEmailChange text s) = error s
     ∨ error (handleEmailChange text s) = None)
  ∧ (touched s = false → error (handleEmailChange text s) = error s).
Proof.
  unfold ForgotPasswordForm.handleEmailBlur, ForgotPasswordForm.handleEmailChange,
    ForgotPassword.validateForm.
  split; [|split; [|split; [|split; [|split; [|split]]]]].
  - case_decide; simpl; [done|]. by destruct (negb _).
  - case_decide; simpl; [done|]. by destruct (negb _).
  - case_decide; simpl; [done|]. by destruct (negb _).
  - case_decide; simpl; [done|]. by destruct (negb _).
  - destruct (touched s); [|done]. by destruct (_ && _).
  - destruct (touched s); [|by left]. destruct (_ && _); [by right|by left].
  - by intros ->.
Qed.

(** *** [sanitizeEmail] *)

Lemma lower_ascii_facts (c : ascii) :
  Js.is_space (Js.lower_ascii c) = Js.is_space c
  ∧ Js.lower_ascii (Js.lower_ascii c) = Js.lower_ascii c.
Proof.
  destruct c as [[] [] [] [] [] [] [] []]; by vm_compute.
Qed.

Lemma toLowerCase_idem (s : string) :
  Js.toLowerCase (Js.toLowerCase s) = Js.toLowerCase s.
Proof.
  induction s as [|c r IH]; [done|]. simpl.
  by rewrite IH, (proj2 (lower_ascii_facts c)).
Qed.

Lemma trimStart_lower (s : string) :
  Js.trimStart (Js.toLowerCase s) = Js.toLowerCase (Js.trimStart s).
Proof.
  induction s as [|c r IH]; [done|]. simpl.
  rewrite (proj1 (lower_ascii_facts c)). by destruct (Js.is_space c).
Qed.

Lemma trimEnd_lower (s : string) :
  Js.trimEnd (Js.toLowerCase s) = Js.toLowerCase (Js.trimEnd s).
Proof.
  induction s as [|c r IH]; [done|]. simpl. rewrite IH.
  destruct (Js.trimEnd r) as [|c' r']; simpl; [|done].
  rewrite (proj1 (lower_ascii_facts c)). by destruct (Js.is_space c).
Qed.

Lemma trimEnd_idem (s : string) : Js.trimEnd (Js.trimEnd s) = Js.trimEnd s.
Proof.
  induction s as [|c r IH]; [done|]. simpl.
  destruct (Js.trimEnd r) as [|c' r'] eqn:Hr.
  - destruct (Js.is_space c) eqn:Hc; [done|]. simpl. by rewrite Hc.
  - simpl in *. by rewrite IH.
Qed.

Lemma trimEnd_head (c : ascii) (r : string) :
  Js.is_space c = false → ∃ r', Js.trimEnd (String c r) = String c r'.
Proof.
  intros Hc. simpl. destruct (Js.trimEnd r); [rewrite Hc|]; by eexists.
Qed.

Lemma trimStart_head (s : string) :
  Js.trimStart s = ""
  ∨ ∃ c r, Js.trimStart s = String c r ∧ Js.is_space c = false.
Proof.
  induction s as [|c r IH]; [by left|]. simpl.
  destruct (Js.is_space c) eqn:Hc; [done|]. right. by exists c, r.
Qed.

Lemma trim_idem (s : string) : Js.trim (Js.trim s) = Js.trim s.
Proof.
  unfold Js.trim. destruct (trimStart_head s) as [->|(c & r & -> & Hc)]; [done|].
  destruct (trimEnd_head c r Hc) as [r' Hr]. rewrite Hr at 1.
  simpl Js.trimStart. rewrite Hc, <- Hr. apply trimEnd_idem.
Qed.

(** X26.  [sanitizeEmail] is a normalisation: applying it twice is the
    same as applying it once, trimming and lower-casing commute, and what
    it returns is unchanged by [trim] and by [toLowerCase]. *)
Theorem sanitizeEmail_is_idempotent (e : string) :
  sanitizeEmail (sanitizeEmail e) = sanitizeEmail e
  ∧ Js.trim (Js.toLowerCase e) = Js.toLowerCase (Js.trim e)
  ∧ Js.trim (sanitizeEmail e) = sanitizeEmail e
  ∧ Js.toLowerCase (sanitizeEmail e) = sanitizeEmail e.
Proof.
  assert (Hcomm : ∀ x, Js.trim (Js.toLowerCase x) = Js.toLowerCase (Js.trim x)).
  { intros x. unfold Js.trim. by rewrite trimStart_lower, trimEnd_lower. }
  unfold sanitizeEmail.
  split; [by rewrite Hcomm, trim_idem, toLowerCase_idem|].
  split; [done|].
  split; [by rewrite Hcomm, trim_idem | apply toLowerCase_idem].
Qed.

End ForgotPasswordLaws.

Lemma invalid_email_is_not_submitted_witness :
  let s := {| ForgotPassword.email := "   "; ForgotPassword.error := None;
              ForgotPassword.touched := false; ForgotPassword.isMountedRef := true;
              ForgotPassword.effects := [] |} in
  let sent := Ok {| ForgotPassword.success := true; ForgotPassword.message := "sent" |} in
  let s' := ForgotPassword.handleSubmit (fun _ => true) sent s in
  ForgotPassword.error s' = Some "Email is required"
  ∧ ForgotPassword.navigations (ForgotPassword.effects s') = [].
Proof.
  intros s sent s'.
  destruct (invalid_email_is_not_submitted (fun _ => true) sent sent s)
    as (_ & Hnav & _ & Herr); [reflexivity | reflexivity |].
  split; [exact Herr | exact Hnav].
Defined.

Lemma throttled_or_offline_stays_on_screen_witness :
  let err := Err.ThrownApi
               (Api.normalize
                  (Api.failingReply 429
                     (Some {| Err.body_message := Some "Rate limit exceeded";
                              Err.body_code := None; Err.body_errors := None |}))) in
  let s := {| ForgotPassword.email := "buyer@example.com"; ForgotPassword.error := None;
              ForgotPassword.touched := true; ForgotPassword.isMountedRef := true;
              ForgotPassword.effects := [] |} in
  ForgotPassword.navigations
    (ForgotPassword.effects (ForgotPassword.handleSubmit (fun _ => true) (Throw err) s))
  = [].
Proof.
  intros err s.
  destruct (throttled_or_offline_stays_on_screen (fun _ => true) err s) as [Hmounted _];
    [reflexivity | reflexivity |].
  exact (proj1 (Hmounted eq_refl)).
Defined.

(** ** The login screen: remember me, validation *)

Section LoginLaws.

Import Login.

Variable EMAIL_REGEX_test : string -> bool.

Local Abbreviation validateForm := (Login.validateForm EMAIL_REGEX_test).
Local Abbreviation handleLogin := (Login.handleLogin EMAIL_REGEX_test).

Lemma toLowerCase_nonempty (v : string) : v ≠ "" → Js.toLowerCase v ≠ "".
Proof. by destruct v. Qed.

Lemma valid_login_fields (s : Screen) :
  fst (validateForm s) = true →
  Js.trim (email s) ≠ "" ∧ password s ≠ ""
  ∧ Validation.validatePassword (password s) = true
  ∧ Login.newErrors EMAIL_REGEX_test s = {| err_email := None; err_password := None |}.
Proof.
  unfold Login.validateForm, Login.newErrors. simpl.
  destruct (decide (Js.trim (email s) = "")); [done|].
  destruct (negb (ForgotPassword.validateEmail _ _)); [done|].
  destruct (decide (password s = "")); [done|].
  by destruct (Validation.validatePassword (password s)).
Qed.

(** X27.  With a valid form of ASCII characters, [handleLogin] starts
    exactly one sign-in, for the sanitised email, the password as typed
    and the remember-me flag as it stands, whether or not AsyncStorage
    works.  When it works, the remembered-email entry afterwards is the
    sanitised email if the flag is set and absent if it is not, and no
    other entry changes; a login screen mounted later on that storage then
    starts with that email filled in and the flag set, or untouched when
    the entry is absent. *)
Theorem login_remembers_the_sanitised_email (storageOk : bool) (s fresh : Screen) :
  MoreProps.isAscii (email s) = true → MoreProps.isAscii (password s) = true →
  fst (validateForm s) = true →
  let s' := handleLogin storageOk s in
  let sanitizedEmail := ForgotPassword.sanitizeEmail (email s) in
  signInCalls s' = (signInCalls s ++ [(sanitizedEmail, password s, rememberMeRef s)])%list
  ∧ errors s' = {| err_email := None; err_password := None |}
  ∧ effects s' = (effects s ++ [Ui.Haptic Ui.Medium])%list
  ∧ (∀ k, k ≠ REMEMBERED_EMAIL_KEY → asyncStorage s' !! k = asyncStorage s !! k)
  ∧ (storageOk = false → asyncStorage s' = asyncStorage s)
  ∧ (storageOk = true →
     asyncStorage s' !! REMEMBERED_EMAIL_KEY
     = (if rememberMeRef s then Some sanitizedEmail else None)
     ∧ (asyncStorage fresh = asyncStorage s' →
        loadRememberedEmail true true fresh
        = if rememberMeRef s then set_remember true (set_email sanitizedEmail fresh)
          else fresh)).
Proof.
  intros _ _ Hvalid s' sanitizedEmail.
  destruct (valid_login_fields s Hvalid) as (Hemail & _ & _ & Herrs).
  assert (Hne : sanitizedEmail ≠ "") by by apply toLowerCase_nonempty.
  subst s'. unfold Login.handleLogin.
  destruct (Login.validateForm EMAIL_REGEX_test s) as [valid s1] eqn:Hv.
  simpl in Hvalid. subst valid.
  unfold Login.validateForm in Hv. injection Hv as _ <-. rewrite Herrs. simpl.
  fold sanitizedEmail.
  destruct storageOk, (rememberMeRef s) eqn:Hr; simpl;
    (split; [done|]); (split; [done|]); (split; [done|]).
  - split; [intros k Hk; by rewrite lookup_insert_ne|]. split; [done|]. intros _.
    split; [apply lookup_insert_eq|]. intros Hs. unfold loadRememberedEmail.
    rewrite Hs. simpl. rewrite lookup_insert_eq. simpl. by rewrite decide_False.
  - split; [intros k Hk; by rewrite lookup_delete_ne|]. split; [done|]. intros _.
    split; [apply lookup_delete_eq|]. intros Hs. unfold loadRememberedEmail.
    rewrite Hs. simpl. by rewrite lookup_delete_eq.
  - done.
  - done.
Qed.

(** X28.  [toggleRememberMe] flips the flag and keeps the ref equal to it;
    turning it off removes the remembered-email entry at once when
    AsyncStorage works, with no login and no sign-in call involved;
    turning it on writes nothing; no other entry ever changes; toggling
    twice restores the flag. *)
Theorem toggling_remember_me_off_forgets_the_email (ok1 ok2 : bool) (s : Screen) :
  let s' := toggleRememberMe ok1 s in
  rememberMe s' = negb (rememberMeRef s)
  ∧ rememberMeRef s' = rememberMe s'
  ∧ signInCalls s' = signInCalls s
  ∧ email s' = email s
  ∧ (∀ k, k ≠ REMEMBERED_EMAIL_KEY → asyncStorage s' !! k = asyncStorage s !! k)
  ∧ asyncStorage s' !! REMEMBERED_EMAIL_KEY
    = (if rememberMeRef s && ok1 then None else asyncStorage s !! REMEMBERED_EMAIL_KEY)
  ∧ rememberMe (toggleRememberMe ok2 s') = rememberMeRef s.
Proof.
  unfold toggleRememberMe. destruct (rememberMeRef s) eqn:Hr, ok1, ok2; simpl;
    rewrite ?Hr; repeat split; try done;
    try (intros k Hk; by rewrite lookup_delete_ne); try apply lookup_delete_eq.
Qed.

(** X29.  A login form of ASCII characters that fails validation goes
    nowhere: no sign-in is started, AsyncStorage is not touched whatever
    the remember-me flag, the only effect is the error haptic, and both
    fields show what is wrong with them: a blank email is 'required' and
    an email the pattern rejects 'not valid'; an empty password is
    'required' and one shorter than 8 characters too short. *)
Theorem invalid_login_is_not_submitted (storageOk : bool) (s : Screen) :
  MoreProps.isAscii (email s) = true → MoreProps.isAscii (password s) = true →
  fst (validateForm s) = false →
  let s' := handleLogin storageOk s in
  signInCalls s' = signInCalls s
  ∧ asyncStorage s' = asyncStorage s
  ∧ effects s' = (effects s ++ [Ui.Haptic Ui.Error])%list
  ∧ errors s' = Login.newErrors EMAIL_REGEX_test s
  ∧ (err_email (errors s') = None ↔
     Js.trim (email s) ≠ ""
     ∧ ForgotPassword.validateEmail EMAIL_REGEX_test (Js.trim (email s)) = true)
  ∧ (err_password (errors s') = None ↔ Validation.validatePassword (password s) = true)
  ∧ (err_email (errors s') ≠ None ∨ err_password (errors s') ≠ None).
Proof.
  intros _ _ Hinvalid s'. subst s'. unfold Login.handleLogin.
  destruct (Login.validateForm EMAIL_REGEX_test s) as [valid s1] eqn:Hv.
  simpl in Hinvalid. subst valid.
  unfold Login.validateForm in Hv. injection Hv as Hcheck <-. simpl.
  split; [done|]. split; [done|]. split; [done|]. split; [done|].
  unfold Login.newErrors in *. simpl in *.
  split; [|split].
  - clear Hcheck. destruct (decide (Js.trim (email s) = "")); [by split; [|intros []]|].
    destruct (ForgotPassword.validateEmail _ _); simpl; split; try done.
    by intros [].
  - clear Hcheck. destruct (decide (password s = "")) as [Hp|Hp].
    + rewrite Hp. by vm_compute.
    + by destruct (Validation.validatePassword _).
  - destruct (decide (Js.trim (email s) = "")); [by left|].
    destruct (negb (ForgotPassword.validateEmail _ _)); [by left|].
    destruct (decide (password s = "")); [by right|].
    destruct (negb (Validation.validatePassword _)); [by right|done].
Qed.

End LoginLaws.

(** ** The register screen: sign-up, then the verification code *)

Section RegisterLaws.

Import Register.

Variable EMAIL_REGEX_test : string -> bool.

Local Abbreviation validateForm := (Register.validateForm EMAIL_REGEX_test).

Lemma pushes_app (fx1 fx2 : list Effect) :
  pushes (fx1 ++ fx2) = (pushes fx1 ++ pushes fx2)%list.
Proof. apply omap_app. Qed.

(** X30.  Registration fails forward, for a name, an email and a password
    of ASCII characters.  With a valid form, one sign-up is started with
    the sanitised email, the password as typed and the trimmed name.  When
    it succeeds, one OTP request of type 'email-verification' follows for
    that email, and whether that request succeeds or fails the screen
    navigates to the OTP screen with that email and name; only the haptic
    differs.  When the sign-up fails, no OTP is requested and nothing is
    navigated to.  With an invalid form nothing is started at all. *)
Theorem registration_fails_forward {A B} (a : A) (otpReply : Outcome B)
    (err : Err.Thrown) (anySignUp : Outcome A) (s : Screen) :
  MoreProps.isAscii (fullName s) = true → MoreProps.isAscii (email s) = true →
  MoreProps.isAscii (password s) = true →
  let sanitizedEmail := ForgotPassword.sanitizeEmail (email s) in
  let sanitizedName := Validation.sanitizeInput (fullName s) in
  (fst (validateForm s) = true →
   let s1 := handleRegister EMAIL_REGEX_test (Ok a) otpReply s in
   let s2 := handleRegister EMAIL_REGEX_test (@Throw A err) otpReply s in
   signUpCalls s1 = (signUpCalls s ++ [(sanitizedEmail, password s, sanitizedName)])%list
   ∧ otpCalls s1 = (otpCalls s ++ [(sanitizedEmail, "email-verification")])%list
   ∧ pushes (effects s1) = (pushes (effects s) ++ [(sanitizedEmail, sanitizedName)])%list
   ∧ effects s1
     = (effects s ++ [Haptic Medium;
                      Haptic (match otpReply with Ok _ => Success | Throw _ => Warning end);
                      PushVerifyOtp sanitizedEmail sanitizedName])%list
   ∧ signUpCalls s2 = signUpCalls s1
   ∧ otpCalls s2 = otpCalls s
   ∧ pushes (effects s2) = pushes (effects s))
  ∧ (fst (validateForm s) = false →
     let s3 := handleRegister EMAIL_REGEX_test anySignUp otpReply s in
     signUpCalls s3 = signUpCalls s ∧ otpCalls s3 = otpCalls s
     ∧ effects s3 = (effects s ++ [Haptic Error])%list).
Proof.
  intros _ _ _ sanitizedEmail sanitizedName. unfold handleRegister.
  destruct (Register.validateForm EMAIL_REGEX_test s) as [valid s0] eqn:Hv.
  unfold Register.validateForm in Hv. injection Hv as Hcheck <-.
  split; simpl; intros ->; simpl; [|done].
  fold sanitizedEmail sanitizedName.
  split; [by destruct otpReply|]. split; [by destruct otpReply|].
  split.
  { destruct otpReply; simpl; by rewrite !pushes_app, <- app_assoc. }
  split; [destruct otpReply; simpl; by rewrite <- !app_assoc|].
  split; [destruct otpReply; by destruct (isEmailTaken _)|].
  split; [by destruct (isEmailTaken _)|].
  destruct (isEmailTaken _); simpl; rewrite !pushes_app; simpl;
    by rewrite !app_nil_r.
Qed.

End RegisterLaws.

Lemma login_remembers_the_sanitised_email_witness :
  let s := {| Login.email := " Buyer@Example.com "; Login.password := "password123";
              Login.rememberMe := true; Login.rememberMeRef := true;
              Login.errors := {| Login.err_email := None; Login.err_password := None |};
              Login.asyncStorage := ∅; Login.signInCalls := []; Login.effects := [] |} in
  let s' := Login.handleLogin (fun _ => true) true s in
  Login.signInCalls s' = [("buyer@example.com", "password123", true)]
  ∧ Login.asyncStorage s' !! Login.REMEMBERED_EMAIL_KEY = Some "buyer@example.com".
Proof.
  intros s s'.
  destruct (login_remembers_the_sanitised_email (fun _ => true) true s s)
    as (Hcalls & _ & _ & _ & _ & Hstore); [reflexivity | reflexivity | reflexivity |].
  split; [exact Hcalls | exact (proj1 (Hstore eq_refl))].
Defined.

Lemma invalid_login_is_not_submitted_witness :
  let s := {| Login.email := "buyer@example.com"; Login.password := "short";
              Login.rememberMe := true; Login.rememberMeRef := true;
              Login.errors := {| Login.err_email := None; Login.err_password := None |};
              Login.asyncStorage := ∅; Login.signInCalls := []; Login.effects := [] |} in
  let s' := Login.handleLogin (fun _ => true) true s in
  Login.signInCalls s' = [] ∧ Login.asyncStorage s' = ∅.
Proof.
  intros s s'.
  destruct (invalid_login_is_not_submitted (fun _ => true) true s)
    as (Hcalls & Hstore & _); [reflexivity | reflexivity | reflexivity |].
  split; [exact Hcalls | exact Hstore].
Defined.

Lemma registration_fails_forward_witness :
  let s := {| Register.fullName := " Test Buyer "; Register.email := "New@Example.com";
              Register.password := "password123";
              Register.confirmPassword := "password123";
              Register.agreeToTerms := true;
              Register.errors :=
                {| Register.err_fullName := None; Register.err_email := None;
                   Register.err_password := None;
                   Register.err_confirmPassword := None; Register.err_terms := None |};
              Register.signUpCalls := []; Register.otpCalls := [];
              Register.effects := [] |} in
  Register.pushes
    (Register.effects
       (Register.handleRegister (fun _ => true) (Ok tt)
          (@Throw unit (Err.ThrownError "Network Error")) s))
  = [("new@example.com", "Test Buyer")].
Proof.
  intros s.
  destruct (registration_fails_forward (fun _ => true) tt
              (@Throw unit (Err.ThrownError "Network Error"))
              Err.ThrownOther (Ok tt) s) as [Hvalid _];
    [reflexivity | reflexivity | reflexivity |].
  destruct (Hvalid eq_refl) as (_ & _ & Hpush & _). exact Hpush.
Defined.

Lemma failed_auth_call_writes_nothing_witness :
  let w := UseAuth.firstLaunch ∅ [] in
  snd (UseAuth.useSignIn (Api.AxRejected (Api.failingReply 500 None)) w) = w.
Proof.
  intros w.
  pose proof failed_auth_call_writes_nothing as Hall.
  apply Forall_cons in Hall as [_ Hall]. apply Forall_cons in Hall as [HsignIn _].
  destruct (HsignIn (Api.failingReply 500 None) w) as (_ & _ & _ & Hsame).
  apply Hsame. vm_compute. discriminate.
Defined.

Lemma signUp_leaves_session_store_witness :
  let x := {| AuthTypes.session_id := "s1"; AuthTypes.userId := "user-1";
              AuthTypes.expiresAt := "2026-02-01";
              AuthTypes.token := "mock-session-token" |} in
  let data := {| AuthTypes.user := None; AuthTypes.session := Some x |} in
  let w := UseAuth.firstLaunch ∅ [] in
  secure (snd (UseAuth.useSignUp (Api.AxFulfilled 200 data) w))
  = <["swuva-auth-token" := "mock-session-token"]> (secure w)
  ∧ auth (snd (UseAuth.useSignUp (Api.AxFulfilled 200 data) w)) = auth w.
Proof.
  intros x data w.
  destruct (signUp_leaves_session_store (Api.AxFulfilled 200 data) w) as [Hauth Hok].
  destruct (Hok 200 None x) as (_ & Hs & _); [constructor | discriminate |].
  split; [exact Hs | exact Hauth].
Defined.

Lemma resend_is_guarded_witness :
  let s := VerifyOTP.run (repeat VerifyOTP.Tick 60) (VerifyOTP.mount "buyer@example.com") in
  let pressed := VerifyOTP.step s VerifyOTP.PressResend in
  let failed :=
    VerifyOTP.step pressed (VerifyOTP.ResendSettled (VerifyOTP.Failed Err.ThrownOther)) in
  VerifyOTP.resendCalls
    (VerifyOTP.run [VerifyOTP.PressResend; VerifyOTP.PressResend] s)
  = ["buyer@example.com"; "buyer@example.com"]
  ∧ VerifyOTP.resendCalls
      (VerifyOTP.run [VerifyOTP.PressResend; VerifyOTP.Rerender; VerifyOTP.PressResend] s)
    = ["buyer@example.com"]
  ∧ VerifyOTP.resendMutating failed = false
  ∧ VerifyOTP.phase failed = VerifyOTP.phase pressed.
Proof.
  intros s pressed failed.
  destruct (resend_is_guarded s VerifyOTP.PressResend) as (_ & _ & Hraces & _).
  destruct Hraces as [Htwice Honce]; [reflexivity | reflexivity | reflexivity |].
  destruct (resend_is_guarded pressed VerifyOTP.PressResend) as (_ & _ & _ & Hfailed).
  destruct (Hfailed Err.ThrownOther) as (Hidle & _ & _ & Hphase & _);
    [reflexivity | reflexivity |].
  split; [exact Htwice|]. split; [exact Honce|]. split; [exact Hidle | exact Hphase].
Defined.

Lemma digit_change_is_well_formed_witness :
  ∃ v, OTPInput.handleDigitChange 6 "123" "7" 1 = Some v ∧ String.length v = 3.
Proof.
  pose proof (digit_change_is_well_formed 6 "123" "7" 1) as Hv.
  destruct (OTPInput.handleDigitChange 6 "123" "7" 1) as [v|]; [|discriminate Hv].
  exists v. split; [reflexivity|].
  destruct Hv as (_ & _ & _ & Hlen & _). apply Hlen; vm_compute; lia.
Defined.

Lemma backspace_removes_at_most_one_witness :
  OTPInput.handleKeyPress "123" "Enter" 1 = None.
Proof.
  apply (proj1 (backspace_removes_at_most_one "123" "Enter" 1)). discriminate.
Defined.

Lemma password_strength_label_witness :
  let r := Validation.getPasswordStrength "password123" in
  Validation.level (Z.min (Z.of_nat (Validation.score r) - 1) 3)
  = Some (Validation.label r, Validation.color r).
Proof.
  intros r.
  destruct (password_strength_label "password123") as (_ & _ & _ & Hlevel);
    [reflexivity|].
  apply Hlevel. reflexivity.
Defined.

Lemma email_field_feedback_matches_submit_witness :
  let s := {| ForgotPassword.email := "   "; ForgotPassword.error := None;
              ForgotPassword.touched := false; ForgotPassword.isMountedRef := true;
              ForgotPassword.effects := [] |} in
  ForgotPassword.error (ForgotPasswordForm.handleEmailBlur (fun _ => true) s)
  = Some "Email is required"
  ∧ ForgotPassword.error (ForgotPasswordForm.handleEmailChange (fun _ => true) "b" s)
    = None.
Proof.
  intros s.
  destruct (email_field_feedback_matches_submit (fun _ => true) "b" s)
    as (_ & Hblur & _ & _ & _ & _ & Htyping).
  split; [exact (Hblur eq_refl) | exact (Htyping eq_refl)].
Defined.
